(** * typeorm-seeding: the entity-construction pipeline of [Factory]

    A shallow embedding of [src/factory.ts].  JavaScript objects are
    association lists in insertion order, the asynchronous methods are
    sequential computations over an explicit world (every [await] of the
    source is a sequencing point), exceptions are an error result, and the
    recursion through nested factories is bounded by fuel. *)

From Stdlib Require Import List String ZArith Bool Lia.
Import ListNotations.

Set Warnings "-register-all".

Local Open Scope string_scope.
Local Open Scope Z_scope.
Local Open Scope list_scope.

(** ** Values and objects *)

(** The attribute values the pipeline distinguishes.  A factory instance is a
    reference into the table of factory instances; a promise-like value
    carries what it settles to. *)
Inductive value : Type :=
| VUndefined
| VString (s : string)
| VNumber (n : Z)
| VPromise (settled : value)
| VRejected (reason : string)
| VFactory (ref : nat)
| VObject (fields : list (string * value)).

(** A plain attribute bag; entities, contexts, override parameters and save
    options are all such objects.  Attribute names are taken to be
    non-numeric, so that [for..in] visits them in insertion order. *)
Definition obj : Type := list (string * value).

(** [o[k]] *)
Fixpoint obj_get (o : obj) (k : string) : value :=
  match o with
  | [] => VUndefined
  | (k', v) :: rest => if String.eqb k' k then v else obj_get rest k
  end.

(** [k in o] *)
Fixpoint obj_has (o : obj) (k : string) : bool :=
  match o with
  | [] => false
  | (k', _) :: rest => if String.eqb k' k then true else obj_has rest k
  end.

(** [o[k] = v]: an existing attribute keeps its place, a new one goes last. *)
Fixpoint obj_set (o : obj) (k : string) (v : value) : obj :=
  match o with
  | [] => [(k, v)]
  | (k', v') :: rest =>
      if String.eqb k' k then (k', v) :: rest else (k', v') :: obj_set rest k v
  end.

(** The attribute names a [for (const k in o)] loop visits: every name once,
    in the order the attributes were first set. *)
Fixpoint obj_keys (o : obj) : list string :=
  match o with
  | [] => []
  | (k, _) :: rest =>
      k :: filter (fun k' => negb (String.eqb k k')) (obj_keys rest)
  end.

(** ** Errors, events, results *)

(** An entry of [requiredContextKeys]: [keyof Context | (keyof Context)[]]. *)
Inductive keyEntry : Type :=
| KeySingle (key : string)
| KeyGroup (keys : list string).

(** The failures of a construction call.  [NotImplementedError] is the
    [Error] thrown by the inherited [entity] method, [MissingCollaboratorError]
    the one thrown by the [seedingSource] getter, [Rejected] any failure
    coming from a promise, a hook or the data source. *)
Inductive error : Type :=
| MissingContextError (entry : keyEntry)
| NotImplementedError
| MissingCollaboratorError
| Rejected (reason : string).

(** What the pipeline does to its collaborators, in the order it does it. *)
Inductive event : Type :=
| EvEntity (instance : option obj) (context : obj)
| EvMap (entity : obj)
| EvFinalize (entity : obj) (context : obj)
| EvInitialize (source : nat)
| EvSave (source : nat) (entity : obj) (saveOptions : option obj).

Definition is_persistence_event (ev : event) : bool :=
  match ev with
  | EvInitialize _ | EvSave _ _ _ => true
  | _ => false
  end.

Inductive result (A : Type) : Type :=
| Returned (a : A)
| Threw (e : error)
| Diverged.
Arguments Returned {A} a.
Arguments Threw {A} e.
Arguments Diverged {A}.

(** [ClassConstructor<Entity>]: [new C()] yields a fresh attribute bag. *)
Record ClassConstructor : Type := {
  class_name : string;
  class_new : obj
}.

(** ** Helpers of the resolver *)

(** Modelled from the spec: [isPromiseLike] of [utils/is-promise-like.util],
    which is not among the sources: a value is promise-like when it exposes a
    deferred-computation completion contract. *)
Definition isPromiseLike (v : value) : bool :=
  match v with
  | VPromise _ | VRejected _ => true
  | _ => false
  end.

(** [v instanceof Factory] *)
Definition isFactory (v : value) : bool :=
  match v with
  | VFactory _ => true
  | _ => false
  end.

(** [await v]: a thenable is followed until it settles on a value that is not
    one; any other value is its own result. *)
Fixpoint await (v : value) : error + value :=
  match v with
  | VPromise settled => await settled
  | VRejected reason => inl (Rejected reason)
  | _ => inr v
  end.

(** The two readings the specification gives of a required key group: the
    context must have all of its keys (the context guard of section 4.3), or
    any one of them (the overview of section 2 and step 1 of section 4.1). *)
Inductive GroupRule : Type :=
| AllOf
| AnyOf.

(** Modelled from the spec: the context guard [expectContext] of
    [utils/expect-context.util], which is not among the sources.  A single key
    is satisfied iff the context has it; a group is satisfied according to the
    reading [rule] of the specification, which the pipeline takes from its
    environment; the first unsatisfied entry is the one reported. *)
Definition satisfied (rule : GroupRule) (context : obj) (entry : keyEntry)
    : bool :=
  match entry with
  | KeySingle key => obj_has context key
  | KeyGroup keys =>
      match rule with
      | AllOf => forallb (obj_has context) keys
      | AnyOf => existsb (obj_has context) keys
      end
  end.

Fixpoint expectContext (rule : GroupRule) (context : obj)
    (keys : list keyEntry) : option error :=
  match keys with
  | [] => None
  | entry :: rest =>
      if satisfied rule context entry then expectContext rule context rest
      else Some (MissingContextError entry)
  end.

(** [list[index] = v] for [index <= list.length]: replaces inside the array,
    pushes at its end.  The loops below only ever write at the end. *)
Definition array_set {A : Type} (arr : list A) (index : Z) (v : A) : list A :=
  firstn (Z.to_nat index) arr ++ v :: skipn (S (Z.to_nat index)) arr.

(** ** The pipeline *)

Section Pipeline.

(** [U] is the state user hooks may read and write (counters, random
    generators), [D] the state behind a data source. *)
Context {U D : Type}.

(** A user hook: it may fail and may change the user state. *)
Definition hook (A : Type) : Type := U -> (error + A) * U.

(** [FactoryOptions] and [FactoryOptionsOverrides]; the [override] and
    [factories] entries, which only the factory resolver reads, are left
    out. *)
Record FactoryOptions : Type := {
  opt_entity : option ClassConstructor;
  opt_requiredContextKeys : option (list keyEntry)
}.

Record FactoryOptionsOverrides : Type := {
  ov_seedingSource : option nat;
  ov_entity : option ClassConstructor;
  ov_requiredContextKeys : option (list keyEntry)
}.

(** A factory instance.  [entity_method] and [finalize_method] are [None]
    when the subclass inherits the method of the abstract class.  A hook
    that mutates the entity it is given returns the entity as it left it. *)
Record Factory : Type := {
  options : FactoryOptions;
  optionOverrides : FactoryOptionsOverrides;
  mapFunction : option (obj -> hook obj);
  entity_method : option (option obj -> obj -> hook obj);
  finalize_method : option (obj -> obj -> hook obj)
}.

(** What the pipeline is run against: the two operations of the persistence
    collaborator ([dataSource.initialize()] and the entity manager's
    [save]), the table of factory instances that [VFactory] references
    point into, and the reading of key groups the context guard follows. *)
Class Environment : Type := {
  group_rule : GroupRule;
  ds_initialize : D -> error + D;
  em_save : D -> obj -> option obj -> (error + obj) * D;
  lookupFactory : nat -> Factory
}.

Context {env : Environment}.

(** *** The world and the computations over it *)

Record dataSource : Type := {
  isInitialized : bool;
  store : D
}.

Record world : Type := {
  user : U;
  dataSources : nat -> dataSource;
  trace : list event
}.

Definition M (A : Type) : Type := world -> result A * world.

Definition ret {A : Type} (a : A) : M A := fun w => (Returned a, w).

Definition throw {A : Type} (e : error) : M A := fun w => (Threw e, w).

Definition diverge {A : Type} : M A := fun w => (Diverged, w).

Definition bind {A B : Type} (m : M A) (k : A -> M B) : M B :=
  fun w =>
    match m w with
    | (Returned a, w') => k a w'
    | (Threw e, w') => (Threw e, w')
    | (Diverged, w') => (Diverged, w')
    end.

Notation "x <- m ;; k" := (bind m (fun x => k))
  (at level 100, m at next level, right associativity).

Definition record_event (ev : event) (w : world) : world :=
  {| user := user w; dataSources := dataSources w;
     trace := trace w ++ [ev] |}.

Definition log (ev : event) : M unit :=
  fun w => (Returned tt, record_event ev w).

Definition of_sum {A : Type} (r : error + A) : result A :=
  match r with
  | inl e => Threw e
  | inr a => Returned a
  end.

(** Await a user hook: it runs on the user state and nothing else. *)
Definition call_hook {A : Type} (h : hook A) : M A :=
  fun w =>
    let (r, u) := h (user w) in
    (of_sum r,
     {| user := u; dataSources := dataSources w; trace := trace w |}).

Definition set_dataSource (source : nat) (ds : dataSource) : M unit :=
  fun w => (Returned tt,
            {| user := user w;
               dataSources := fun i => if Nat.eqb i source then ds
                                       else dataSources w i;
               trace := trace w |}).

Definition get_dataSource (source : nat) : M dataSource :=
  fun w => (Returned (dataSources w source), w).

(** [dataSource.initialize()] *)
Definition initialize (source : nat) : M unit :=
  _ <- log (EvInitialize source);;
  ds <- get_dataSource source;;
  match ds_initialize (store ds) with
  | inl e => throw e
  | inr d => set_dataSource source {| isInitialized := true; store := d |}
  end.

(** [dataSource.createEntityManager().save(entity, saveOptions)] *)
Definition manager_save (source : nat) (entity : obj)
    (saveOptions : option obj) : M obj :=
  _ <- log (EvSave source entity saveOptions);;
  ds <- get_dataSource source;;
  let (r, d) := em_save (store ds) entity saveOptions in
  _ <- set_dataSource source {| isInitialized := isInitialized ds;
                                store := d |};;
  fun w => (of_sum r, w).

(** *** The accessors of [Factory] *)

(** [get seedingSource()] *)
Definition seedingSource (f : Factory) : M nat :=
  match ov_seedingSource (optionOverrides f) with
  | Some source => ret source
  | None => throw MissingCollaboratorError
  end.

(** [get requiredContextKeys()] *)
Definition requiredContextKeys (f : Factory) : option (list keyEntry) :=
  match ov_requiredContextKeys (optionOverrides f) with
  | Some keys => Some keys
  | None => opt_requiredContextKeys (options f)
  end.

(** [entityClass()] *)
Definition entityClass (f : Factory) : option ClassConstructor :=
  match ov_entity (optionOverrides f) with
  | Some c => Some c
  | None => opt_entity (options f)
  end.

(** [entity(entity?, context?)]: the inherited method returns the instance
    it is given and throws when there is none. *)
Definition entity (f : Factory) (instance : option obj) (context : obj)
    : M obj :=
  _ <- log (EvEntity instance context);;
  match entity_method f with
  | Some h => call_hook (h instance context)
  | None =>
      match instance with
      | Some e => ret e
      | None => throw NotImplementedError
      end
  end.

(** [finalize(entity, context?)]: the inherited method does nothing. *)
Definition finalize (f : Factory) (e : obj) (context : obj) : M obj :=
  _ <- log (EvFinalize e context);;
  match finalize_method f with
  | Some h => call_hook (h e context)
  | None => ret e
  end.

(** [map(mapFunction)] *)
Definition map (mapFunction' : obj -> hook obj) (f : Factory) : Factory :=
  {| options := options f;
     optionOverrides := optionOverrides f;
     mapFunction := Some mapFunction';
     entity_method := entity_method f;
     finalize_method := finalize_method f |}.

(** *** Construction *)

(** A parameter with the default value [{}]: the default applies when the
    argument is [undefined]. *)
Definition or_empty (o : option obj) : obj :=
  match o with
  | Some x => x
  | None => []
  end.

(** [for (const key in overrideParams) entity[key] = overrideParams[key]] *)
Definition applyOverrides (e : obj) (overrideParams : obj) : obj :=
  fold_left (fun e' key => obj_set e' key (obj_get overrideParams key))
            (obj_keys overrideParams) e.

(** [save(entity, saveOptions)] *)
Definition save (f : Factory) (e : obj) (saveOptions : option obj) : M obj :=
  source <- seedingSource f;;
  ds <- get_dataSource source;;
  _ <- (if negb (isInitialized ds) then initialize source else ret tt);;
  manager_save source e saveOptions.

(** [make] and [create] over a given [makeEntity]; the recursion below
    instantiates it with the pipeline at the remaining fuel. *)
Definition make_with
    (makeEntity' : Factory -> obj -> option obj -> bool -> option obj -> M obj)
    (f : Factory) (overrideParams context : option obj) : M obj :=
  makeEntity' f (or_empty overrideParams) (Some (or_empty context)) false None.

Definition create_with
    (makeEntity' : Factory -> obj -> option obj -> bool -> option obj -> M obj)
    (f : Factory) (overrideParams context saveOptions : option obj) : M obj :=
  e <- makeEntity' f (or_empty overrideParams) (Some (or_empty context))
                   true saveOptions;;
  save f e saveOptions.

(** One turn of the loop of [resolveEntity], at [attribute]. *)
Definition resolveAttribute
    (makeEntity' : Factory -> obj -> option obj -> bool -> option obj -> M obj)
    (persist : bool) (saveOptions : option obj)
    (e : obj) (attribute : string) : M obj :=
  let attributeValue := obj_get e attribute in
  e1 <- (if isPromiseLike attributeValue then
           match await attributeValue with
           | inl err => throw err
           | inr v => ret (obj_set e attribute v)
           end
         else ret e);;
  match attributeValue with
  | VFactory ref =>
      if persist then
        r <- create_with makeEntity' (lookupFactory ref) None saveOptions None;;
        ret (obj_set e1 attribute (VObject r))
      else
        r <- make_with makeEntity' (lookupFactory ref) None None;;
        ret (obj_set e1 attribute (VObject r))
  | _ => ret e1
  end.

Fixpoint resolveAttributes
    (makeEntity' : Factory -> obj -> option obj -> bool -> option obj -> M obj)
    (persist : bool) (saveOptions : option obj)
    (attributes : list string) (e : obj) : M obj :=
  match attributes with
  | [] => ret e
  | attribute :: rest =>
      e' <- resolveAttribute makeEntity' persist saveOptions e attribute;;
      resolveAttributes makeEntity' persist saveOptions rest e'
  end.

(** [resolveEntity(entity, persist, saveOptions)] *)
Definition resolveEntity
    (makeEntity' : Factory -> obj -> option obj -> bool -> option obj -> M obj)
    (e : obj) (persist : bool) (saveOptions : option obj) : M obj :=
  resolveAttributes makeEntity' persist saveOptions (obj_keys e) e.

(** [makeEntity(overrideParams, context, persist, saveOptions)].  Fuel
    bounds the depth of nested factories; a definition that refers to
    itself without a base case exhausts any amount of it. *)
Fixpoint makeEntity (fuel : nat) (f : Factory) (overrideParams : obj)
    (context : option obj) (persist : bool) (saveOptions : option obj)
    {struct fuel} : M obj :=
  match fuel with
  | O => diverge
  | S fuel' =>
      let context := or_empty context in
      _ <- match requiredContextKeys f with
           | Some keys =>
               match expectContext group_rule context keys with
               | Some err => throw err
               | None => ret tt
               end
           | None => ret tt
           end;;
      let entityClass' := entityClass f in
      e <- entity f (option_map class_new entityClass') context;;
      e <- match mapFunction f with
           | Some fn => _ <- log (EvMap e);; call_hook (fn e)
           | None => ret e
           end;;
      let e := applyOverrides e overrideParams in
      resolvedEntity <- resolveEntity (makeEntity fuel') e persist saveOptions;;
      resolvedEntity <- finalize f resolvedEntity context;;
      ret resolvedEntity
  end.

(** [make(overrideParams = {}, context = {})] *)
Definition make (fuel : nat) (f : Factory)
    (overrideParams context : option obj) : M obj :=
  make_with (makeEntity fuel) f overrideParams context.

(** [create(overrideParams = {}, context = {}, saveOptions?)] *)
Definition create (fuel : nat) (f : Factory)
    (overrideParams context saveOptions : option obj) : M obj :=
  create_with (makeEntity fuel) f overrideParams context saveOptions.

(** The [for (let index = 0; index < amount; index++)] loop shared by
    [makeMany] and [createMany], [one] being the awaited call of its body.
    [entities] is the array [list] of the source.  [steps] bounds the
    number of turns; [Z.to_nat amount] is enough. *)
Fixpoint many_loop (steps : nat) (one : M obj) (amount index : Z)
    (entities : list obj) : M (list obj) :=
  if index <? amount then
    match steps with
    | O => diverge
    | S steps' =>
        e <- one;;
        many_loop steps' one amount (index + 1) (array_set entities index e)
    end
  else ret entities.

(** [makeMany(amount, overrideParams = {}, context = {})] *)
Definition makeMany (fuel : nat) (f : Factory) (amount : Z)
    (overrideParams context : option obj) : M (list obj) :=
  let overrideParams := or_empty overrideParams in
  let context := or_empty context in
  many_loop (Z.to_nat amount)
            (make fuel f (Some overrideParams) (Some context)) amount 0 [].

(** [createMany(amount, overrideParams = {}, context = {}, saveOptions?)] *)
Definition createMany (fuel : nat) (f : Factory) (amount : Z)
    (overrideParams context saveOptions : option obj) : M (list obj) :=
  let overrideParams := or_empty overrideParams in
  let context := or_empty context in
  many_loop (Z.to_nat amount)
            (create fuel f (Some overrideParams) (Some context) saveOptions)
            amount 0 [].

(** *** The words of the specification *)

(** "Call the single-entity operation [amount] times sequentially,
    collecting results in call order." *)
Fixpoint callTimes (n : nat) (one : M obj) : M (list obj) :=
  match n with
  | O => ret []
  | S n' =>
      e <- one;;
      rest <- callTimes n' one;;
      ret (e :: rest)
  end.

(** The factory [f] defined with the definition-time options [o] instead
    of its own. *)
Definition with_options (f : Factory) (o : FactoryOptions) : Factory :=
  {| options := o;
     optionOverrides := optionOverrides f;
     mapFunction := mapFunction f;
     entity_method := entity_method f;
     finalize_method := finalize_method f |}.

(** The factory [f] constructs with the entity class [cls] (if any) and the
    required context keys [keys] (if any).  A construction call, [make] or
    [create], validates the context against [keys] before anything else and,
    when the context does not pass, fails with the error of the guard and
    does nothing; when the context passes, the first thing the call does is
    invoke the entity hook with a fresh instance of [cls] (with nothing when
    there is no class) and the context. *)
Definition constructs_with (f : Factory) (cls : option ClassConstructor)
    (keys : option (list keyEntry)) : Prop :=
  forall (fuel : nat) (overrideParams context saveOptions : option obj)
         (w : world),
    match
      match keys with
      | Some ks => expectContext group_rule (or_empty context) ks
      | None => None
      end
    with
    | Some err =>
        make (S fuel) f overrideParams context w = (Threw err, w)
        /\ create (S fuel) f overrideParams context saveOptions w
           = (Threw err, w)
    | None =>
        (exists evs,
            trace (snd (make (S fuel) f overrideParams context w))
            = trace w
              ++ EvEntity (option_map class_new cls) (or_empty context)
              :: evs)
        /\ (exists evs,
              trace (snd (create (S fuel) f overrideParams context
                                 saveOptions w))
              = trace w
                ++ EvEntity (option_map class_new cls) (or_empty context)
                :: evs)
    end.

(** The supplied context passes the validation of step 1. *)
Definition context_accepted (f : Factory) (context : obj) : bool :=
  match requiredContextKeys f with
  | Some keys =>
      match expectContext group_rule context keys with
      | Some _ => false
      | None => true
      end
  | None => true
  end.

(** How [resolveEntity], run on the entity [merged] from the world [wp] and
    ending in the world [w_end], treats the attribute [k] whose value to
    resolve is [v], and what it leaves there, [returned].  The attributes
    before [k] have been resolved first, which led to a world [w_before].
    A factory instance is replaced by the entity that the nested factory
    returns when called from [w_before]: by [make()] when not persisting; by
    [create], whose last act is a save, when persisting (with which context
    and save options is not said here); and the world the nested call left
    is one the resolution passed through before it ended.  A promise-like
    value is replaced by what it settles to; when it settles to a factory
    instance nothing is said.  Any other value stays. *)
Definition resolved_attribute (fuel : nat) (persist : bool)
    (saveOptions : option obj) (merged : obj) (wp : world) (k : string)
    (v returned : value) (w_end : world) : Prop :=
  exists before after e_before w_before,
    obj_keys merged = before ++ k :: after
    /\ resolveAttributes (makeEntity fuel) persist saveOptions before merged wp
       = (Returned e_before, w_before)
    /\ match v with
       | VFactory ref =>
           exists r w_after,
             returned = VObject r
             /\ (exists later, trace w_end = trace w_after ++ later)
             /\ (if persist then
                   exists context' saveOptions' source saved evs,
                     create fuel (lookupFactory ref) None context' saveOptions'
                            w_before = (Returned r, w_after)
                     /\ trace w_after
                        = trace w_before ++ evs
                          ++ [EvSave source saved saveOptions']
                 else
                   make fuel (lookupFactory ref) None None w_before
                     = (Returned r, w_after))
       | VPromise _ | VRejected _ =>
           exists settled,
             await v = inr settled
             /\ (isFactory settled = false -> returned = settled)
       | _ => returned = v
       end.

(** The hook returns the entity it is given as it got it. *)
Definition preserves_entity (h : obj -> obj -> hook obj) : Prop :=
  forall e context u e', fst (h e context u) = inr e' -> e' = e.

(** The finalize hook of [f] has side effects outside the entity only. *)
Definition finalize_keeps_entity (f : Factory) : Prop :=
  match finalize_method f with
  | Some h => preserves_entity h
  | None => True
  end.

(** "What the entity hook followed by the map function produced": steps 2
    to 4 of a construction, on their own. *)
Definition generate (f : Factory) (context : obj) : M obj :=
  e <- entity f (option_map class_new (entityClass f)) context;;
  match mapFunction f with
  | Some fn => _ <- log (EvMap e);; call_hook (fn e)
  | None => ret e
  end.

End Pipeline.

Arguments Factory U : clear implicits.
Arguments world U D : clear implicits.
Arguments M U D A : clear implicits.
Arguments Environment U D : clear implicits.

(** The context does not meet a required entry: it lacks the key or, for a
    key group, what the reading in force requires of the group, a member of
    it under [AllOf], every member of it under [AnyOf]. *)
Definition lacks_entry (rule : GroupRule) (context : obj) (entry : keyEntry)
    : Prop :=
  match entry with
  | KeySingle key => obj_has context key = false
  | KeyGroup group =>
      match rule with
      | AllOf => Exists (fun key => obj_has context key = false) group
      | AnyOf => Forall (fun key => obj_has context key = false) group
      end
  end.

(** The context does not meet some entry of the declaration. *)
Definition lacks_required (rule : GroupRule) (context : obj)
    (keys : list keyEntry) : Prop :=
  Exists (lacks_entry rule context) keys.

(** The frame of a computation [m]: from any world, the events it adds all
    satisfy [ok], and when [sealed] it leaves every data source as it was. *)
Definition framed {U D A : Type} (ok : event -> bool) (sealed : bool)
    (m : M U D A) : Prop :=
  forall w : world U D,
    (sealed = true -> dataSources (snd (m w)) = dataSources w)
    /\ exists evs,
         trace (snd (m w)) = trace w ++ evs
         /\ Forall (fun ev => ok ev = true) evs.

(** Whatever [m] settles on (a returned value or a thrown error, as opposed
    to running out of fuel), [m'] settles on as well, in the same world. *)
Definition settles_as {U D A : Type} (m m' : M U D A) : Prop :=
  forall (w w' : world U D) (r : result A),
    m w = (r, w') -> r <> Diverged -> m' w = (r, w').

(** A frame within which persisting is allowed. *)
Definition permissive (ok : event -> bool) (sealed : bool) : Prop :=
  sealed = false /\ forall ev, ok ev = true.

(** The computation [m] leaves the persistence collaborator alone: every data
    source stays as it was, and none of the events it adds is an
    initialization or a save. *)
Definition leaves_persistence_alone {U D A : Type} (m : M U D A) : Prop :=
  framed (fun ev => negb (is_persistence_event ev)) true m.

(** What a successful [save] adds to the trace: the initialization of the
    data source if it was due, then the save itself. *)
Definition save_events (source : nat) (initialized : bool) (e : obj)
    (saveOptions : option obj) : list event :=
  (if initialized then [] else [EvInitialize source])
    ++ [EvSave source e saveOptions].

(** A value that resolution has to replace. *)
Definition unresolved (v : value) : bool := isPromiseLike v || isFactory v.

(** The values of [o] are plain: neither promise-like nor factories. *)
Definition plain_object (o : obj) : bool :=
  forallb (fun k => negb (unresolved (obj_get o k))) (obj_keys o).

(** No attribute of [e] is a pending promise or a factory instance. *)
Definition fully_resolved (e : obj) : bool :=
  forallb (fun k => negb (unresolved (obj_get e k))) (obj_keys e).

(** Every [finalize] of the trace comes after some [save]. *)
Fixpoint save_before_each_finalize (saved : bool) (evs : list event) : bool :=
  match evs with
  | [] => true
  | EvSave _ _ _ :: rest => save_before_each_finalize true rest
  | EvFinalize _ _ :: rest => saved && save_before_each_finalize saved rest
  | _ :: rest => save_before_each_finalize saved rest
  end.

(** ** The fixtures of the test suite *)

Module Fixtures.

(** The user state is the counter behind the generated names; a data
    source holds the next identity it assigns on [save]. *)
Definition U : Type := nat.
Definition D : Type := nat.

Definition User : ClassConstructor :=
  {| class_name := "User"; class_new := [] |}.

Definition Pet : ClassConstructor :=
  {| class_name := "Pet"; class_new := [] |}.

Definition generated_name (n : nat) : value :=
  VString (String (Ascii.ascii_of_nat (65 + n)) "").

Definition with_source : FactoryOptionsOverrides :=
  {| ov_seedingSource := Some 0%nat; ov_entity := None;
     ov_requiredContextKeys := None |}.

(** [UserFactory]: [entity(user) { user.name = <generated>; return user }] *)
Definition userFactory : Factory U :=
  {| options := {| opt_entity := Some User;
                   opt_requiredContextKeys := None |};
     optionOverrides := with_source;
     mapFunction := None;
     entity_method := Some (fun instance _ n =>
       (inr (obj_set (or_empty instance) "name" (generated_name n)), S n));
     finalize_method := None |}.

(** [PetFactory]: the owner is left to [UserFactory]. *)
Definition petFactory : Factory U :=
  {| options := {| opt_entity := Some Pet;
                   opt_requiredContextKeys := None |};
     optionOverrides := with_source;
     mapFunction := None;
     entity_method := Some (fun instance _ n =>
       (inr (obj_set (obj_set (or_empty instance) "name" (generated_name n))
                     "owner" (VFactory 1)), S n));
     finalize_method := None |}.

(** A pet factory whose owner is obtained asynchronously. *)
Definition asyncOwnerFactory : Factory U :=
  {| options := {| opt_entity := Some Pet;
                   opt_requiredContextKeys := None |};
     optionOverrides := with_source;
     mapFunction := None;
     entity_method := Some (fun instance _ n =>
       (inr (obj_set (or_empty instance) "owner" (VPromise (VFactory 1))), n));
     finalize_method := None |}.

(** A user factory whose [finalize] customizes the entity. *)
Definition finalizingFactory : Factory U :=
  {| options := options userFactory;
     optionOverrides := with_source;
     mapFunction := None;
     entity_method := entity_method userFactory;
     finalize_method := Some (fun e _ n =>
       (inr (obj_set e "name" (VString "Finalized")), n)) |}.

(** A factory that inherits [entity] and whose definition has no entity
    class; the class comes with the constructor-time overrides. *)
Definition bareFactory (required : option (list keyEntry)) : Factory U :=
  {| options := {| opt_entity := None; opt_requiredContextKeys := required |};
     optionOverrides := {| ov_seedingSource := Some 0%nat;
                           ov_entity := Some User;
                           ov_requiredContextKeys := None |};
     mapFunction := None;
     entity_method := None;
     finalize_method := None |}.

(** A factory with no entity class at all, an inherited [entity] and a
    required context key. *)
Definition tenantFactory : Factory U :=
  {| options := {| opt_entity := None;
                   opt_requiredContextKeys := Some [KeySingle "tenant"] |};
     optionOverrides := with_source;
     mapFunction := None;
     entity_method := None;
     finalize_method := None |}.

(** A factory configured at both times. *)
Definition twiceConfigured : Factory U :=
  {| options := {| opt_entity := Some Pet;
                   opt_requiredContextKeys := Some [KeySingle "tenant"] |};
     optionOverrides := {| ov_seedingSource := Some 0%nat;
                           ov_entity := Some User;
                           ov_requiredContextKeys :=
                             Some [KeyGroup ["region"; "zone"]] |};
     mapFunction := None;
     entity_method := None;
     finalize_method := None |}.

#[export] Instance env : Environment U D :=
  {| group_rule := AllOf;
     ds_initialize := fun d => inr d;
     em_save := fun d e _ =>
       (inr (obj_set e "id" (VNumber (Z.of_nat d))), S d);
     lookupFactory := fun ref =>
       match ref with
       | O => petFactory
       | _ => userFactory
       end |}.

(** The state the tests start from: an initialized data source. *)
Definition w0 : world U D :=
  {| user := 0%nat;
     dataSources := fun _ => {| isInitialized := true; store := 1%nat |};
     trace := [] |}.

(** The result of a call from [w0], with what it did. *)
Definition run {A : Type} (m : M U D A) : result A * list event :=
  let (r, w) := m w0 in (r, trace w).

End Fixtures.

(** ** The rest of [Factory] *)

(** The run of a bulk call: the entities of the list were constructed one
    after the other by [one], from the world [w] to the world [w'], and each
    construction satisfies [P]. *)
Inductive each_construction {U D : Type} (one : M U D obj)
    (P : world U D -> obj -> world U D -> Prop)
    : world U D -> list obj -> world U D -> Prop :=
| none_constructed (w : world U D) : each_construction one P w [] w
| one_more (w w1 w' : world U D) (e : obj) (rest : list obj) :
    one w = (Returned e, w1) ->
    P w e w1 ->
    each_construction one P w1 rest w' ->
    each_construction one P w (e :: rest) w'.

(** In the construction that [makeEntity] ran on [g] from [w] to [w1] and
    that returned [e], the map function [fn] was invoked once: on the entity
    that the entity hook had just returned, from the user state the hook
    left; and the entity that [fn] left is the one the overrides were merged
    onto, before resolution and the finalize hook. *)
Definition mapped_once {U D : Type} {env : Environment U D} (fuel : nat)
    (persist : bool) (saveOptions : option obj)
    (fn : obj -> hook (U := U) obj) (g : Factory U)
    (overrideParams context : obj) (w : world U D) (e : obj)
    (w1 : world U D) : Prop :=
  exists e0 we produced u resolved wr,
    entity g (option_map class_new (entityClass g)) context w
      = (Returned e0, we)
    /\ fn e0 (user we) = (inr produced, u)
    /\ resolveEntity (makeEntity fuel) (applyOverrides produced overrideParams)
                     persist saveOptions
                     {| user := u;
                        dataSources := dataSources we;
                        trace := trace we ++ [EvMap e0] |}
       = (Returned resolved, wr)
    /\ finalize g resolved context wr = (Returned e, w1).

(** The frame that allows every event. *)
Definition all_events (ev : event) : bool := true.

(** No attribute of [e] is a factory instance. *)
Definition no_factory (e : obj) : Prop :=
  forall k, isFactory (obj_get e k) = false.

Module Offline.

Import Fixtures.

(** A user factory that was given no seeding source. *)
Definition orphanFactory : Factory U :=
  {| options := options userFactory;
     optionOverrides := {| ov_seedingSource := None; ov_entity := None;
                           ov_requiredContextKeys := None |};
     mapFunction := None;
     entity_method := entity_method userFactory;
     finalize_method := None |}.

(** A user factory with the inherited hooks only. *)
Definition plainFactory : Factory U :=
  {| options := {| opt_entity :=
                     Some {| class_name := "User";
                             class_new := [("name", VString "anonymous")] |};
                   opt_requiredContextKeys := None |};
     optionOverrides := with_source;
     mapFunction := None;
     entity_method := None;
     finalize_method := None |}.

(** A map function that marks the entity with the state of the counter and
    bumps it. *)
Definition marking (e : obj) : hook (U := U) obj :=
  fun n => (inr (obj_set e "marked" (VNumber (Z.of_nat n))), S n).

(** A factory whose entity hook works once: it fails as soon as the counter
    has moved. *)
Definition onceFactory : Factory U :=
  {| options := options userFactory;
     optionOverrides := with_source;
     mapFunction := None;
     entity_method := Some (fun instance _ n =>
       match n with
       | O => (inr (obj_set (or_empty instance) "name" (generated_name n)), S n)
       | S _ => (inl (Rejected "exhausted"), n)
       end);
     finalize_method := None |}.

(** The state after the counter has moved. *)
Definition w_spent : world U D :=
  {| user := 1%nat;
     dataSources := fun _ => {| isInitialized := true; store := 1%nat |};
     trace := [] |}.

(** A data source that has not been initialized yet. *)
Definition w_cold : world U D :=
  {| user := 0%nat;
     dataSources := fun _ => {| isInitialized := false; store := 1%nat |};
     trace := [] |}.

(** A factory configured at both times, differently: by its definition it
    makes pets for a tenant, by its overrides users for a region. *)
Definition reconfigured : Factory U :=
  {| options :=
       {| opt_entity := Some {| class_name := "Pet";
                                class_new := [("kind", VString "pet")] |};
          opt_requiredContextKeys := Some [KeySingle "tenant"] |};
     optionOverrides :=
       {| ov_seedingSource := Some 0%nat;
          ov_entity := Some {| class_name := "User";
                               class_new := [("kind", VString "user")] |};
          ov_requiredContextKeys := Some [KeySingle "region"] |};
     mapFunction := None;
     entity_method := None;
     finalize_method := None |}.

(** The environment of the fixtures under the other reading of key groups:
    a group asks for any one of its keys. *)
Definition any_of : Environment U D :=
  {| group_rule := AnyOf;
     ds_initialize := ds_initialize (Environment := env);
     em_save := em_save (Environment := env);
     lookupFactory := lookupFactory (Environment := env) |}.

(** An environment whose data source cannot be reached. *)
Definition unreachable : Environment U D :=
  {| group_rule := group_rule (Environment := env);
     ds_initialize := fun _ => inl (Rejected "connection refused");
     em_save := em_save (Environment := env);
     lookupFactory := lookupFactory (Environment := env) |}.

End Offline.

(** ** Properties of the pipeline *)

Section Properties.

Context {U D : Type} {env : Environment U D}.

Notation "x <- m ;; k" := (bind m (fun x => k))
  (at level 100, m at next level, right associativity).

(** *** Objects *)

Lemma obj_get_set_same (o : obj) (k : string) (v : value) :
  obj_get (obj_set o k v) k = v.
Proof.
  induction o as [|[k' v'] rest IH]; simpl.
  - now rewrite String.eqb_refl.
  - destruct (String.eqb k' k) eqn:E; simpl; now rewrite E.
Qed.

Lemma obj_get_set_other (o : obj) (k k' : string) (v : value) :
  k <> k' -> obj_get (obj_set o k v) k' = obj_get o k'.
Proof.
  intros Hne. induction o as [|[k0 v0] rest IH]; simpl.
  - destruct (String.eqb k k') eqn:E; [|reflexivity].
    apply String.eqb_eq in E. contradiction.
  - destruct (String.eqb k0 k) eqn:E; simpl.
    + apply String.eqb_eq in E. subst k0.
      destruct (String.eqb k k') eqn:E'; [|reflexivity].
      apply String.eqb_eq in E'. contradiction.
    + now rewrite IH.
Qed.

Lemma obj_keys_has (o : obj) (k : string) :
  In k (obj_keys o) <-> obj_has o k = true.
Proof.
  induction o as [|[k' v'] rest IH]; simpl.
  - split; [tauto | discriminate].
  - destruct (String.eqb k' k) eqn:E.
    + apply String.eqb_eq in E. split; auto.
    + rewrite filter_In, IH, E. simpl. split.
      * intros [Heq | [H _]]; [|exact H].
        subst k'. now rewrite String.eqb_refl in E.
      * auto.
Qed.

Lemma obj_keys_NoDup (o : obj) : NoDup (obj_keys o).
Proof.
  induction o as [|[k v] rest IH]; simpl; constructor.
  - rewrite filter_In. intros [_ H].
    now rewrite String.eqb_refl in H.
  - now apply NoDup_filter.
Qed.

(** *** Sequencing *)

Lemma bind_returned {A B : Type} (m : M U D A) (k : A -> M U D B)
    (w w' : world U D) (b : B) :
  bind m k w = (Returned b, w') ->
  exists a w1, m w = (Returned a, w1) /\ k a w1 = (Returned b, w').
Proof.
  unfold bind. destruct (m w) as [[a|e|] w1]; intros H; try discriminate.
  now exists a, w1.
Qed.

Lemma array_set_end {A : Type} (l : list A) (v : A) :
  array_set l (Z.of_nat (List.length l)) v = l ++ [v].
Proof.
  unfold array_set. rewrite Nat2Z.id, firstn_all, skipn_all2 by lia.
  reflexivity.
Qed.

(** The loop of [makeMany] and [createMany] is [callTimes] on the turns that
    are left, and its bound on the number of turns is never reached. *)
Lemma many_loop_callTimes (one : M U D obj) (amount : Z) :
  forall (steps : nat) (index : Z) (acc : list obj) (w : world U D),
    index = Z.of_nat (List.length acc) ->
    (Z.to_nat (amount - index) <= steps)%nat ->
    many_loop steps one amount index acc w =
    (rest <- callTimes (Z.to_nat (amount - index)) one;; ret (acc ++ rest)) w.
Proof.
  induction steps as [|steps IH]; intros index acc w Hidx Hsteps;
    simpl; destruct (index <? amount) eqn:Hlt.
  - apply Z.ltb_lt in Hlt. lia.
  - apply Z.ltb_ge in Hlt.
    replace (Z.to_nat (amount - index)) with 0%nat by lia.
    unfold bind, ret; simpl. now rewrite app_nil_r.
  - apply Z.ltb_lt in Hlt.
    replace (Z.to_nat (amount - index))
      with (S (Z.to_nat (amount - (index + 1)))) by lia.
    simpl. unfold bind.
    destruct (one w) as [[e|err|] w1]; try reflexivity.
    subst index. rewrite array_set_end.
    rewrite IH; [| rewrite List.length_app; simpl; lia | lia].
    unfold bind, ret.
    destruct (callTimes _ one w1) as [[rest|err|] w2]; try reflexivity.
    now rewrite <- app_assoc.
  - apply Z.ltb_ge in Hlt.
    replace (Z.to_nat (amount - index)) with 0%nat by lia.
    unfold bind, ret; simpl. now rewrite app_nil_r.
Qed.

Lemma many_loop_from_start (one : M U D obj) (n : nat) (w : world U D) :
  many_loop (Z.to_nat (Z.of_nat n)) one (Z.of_nat n) 0 [] w = callTimes n one w.
Proof.
  rewrite many_loop_callTimes by (simpl; lia).
  rewrite Z.sub_0_r, Nat2Z.id. unfold bind, ret.
  now destruct (callTimes n one w) as [[l|e|] w'].
Qed.

Lemma callTimes_length (one : M U D obj) :
  forall (n : nat) (w w' : world U D) (l : list obj),
    callTimes n one w = (Returned l, w') -> List.length l = n.
Proof.
  induction n as [|n IH]; intros w w' l H; simpl in H.
  - unfold ret in H. now inversion H.
  - apply bind_returned in H as (e & w1 & _ & H).
    apply bind_returned in H as (rest & w2 & Hrest & H).
    unfold ret in H. inversion H; subst. simpl. f_equal. eauto.
Qed.

(** C7: for every [n >= 0], [makeMany(n, O)] and [createMany(n, O)] are the
    single-entity operation called [n] times in sequence with the results
    collected in call order; what they return has exactly [n] entities; and
    for [n = 0] they return the empty list and leave the world as it was
    (no hook is invoked, no collaborator is called). *)
Theorem many_calls_single_operation_n_times (n fuel : nat) (f : Factory U)
    (overrideParams context saveOptions : option obj) (w : world U D) :
  makeMany fuel f (Z.of_nat n) overrideParams context w =
    callTimes n (make fuel f (Some (or_empty overrideParams))
                      (Some (or_empty context))) w
  /\ createMany fuel f (Z.of_nat n) overrideParams context saveOptions w =
    callTimes n (create fuel f (Some (or_empty overrideParams))
                        (Some (or_empty context)) saveOptions) w
  /\ (forall l w',
        makeMany fuel f (Z.of_nat n) overrideParams context w
          = (Returned l, w') -> List.length l = n)
  /\ (forall l w',
        createMany fuel f (Z.of_nat n) overrideParams context saveOptions w
          = (Returned l, w') -> List.length l = n)
  /\ makeMany fuel f 0 overrideParams context w = (Returned [], w)
  /\ createMany fuel f 0 overrideParams context saveOptions w
       = (Returned [], w).
Proof.
  unfold makeMany, createMany.
  rewrite !many_loop_from_start.
  repeat split; try reflexivity; intros l w' H;
    eapply callTimes_length; eassumption.
Qed.

(** C10: for every amount below zero, [makeMany] and [createMany] return the
    empty list and leave the world as it was: nothing is constructed, no
    hook is invoked, nothing is persisted. *)
Theorem negative_amount_makes_nothing (amount : Z) (fuel : nat)
    (f : Factory U) (overrideParams context saveOptions : option obj)
    (w : world U D) :
  amount < 0 ->
  makeMany fuel f amount overrideParams context w = (Returned [], w)
  /\ createMany fuel f amount overrideParams context saveOptions w
       = (Returned [], w).
Proof.
  intros Hneg. unfold makeMany, createMany.
  replace (Z.to_nat amount) with 0%nat by lia. simpl.
  assert (E : (0 <? amount) = false) by (apply Z.ltb_ge; lia).
  now rewrite E.
Qed.

(** *** Validation and configuration *)

Lemma lacks_entry_unsatisfied (rule : GroupRule) (context : obj)
    (entry : keyEntry) :
  lacks_entry rule context entry <-> satisfied rule context entry = false.
Proof.
  destruct entry as [key | group]; simpl; [tauto|].
  destruct rule.
  - rewrite Exists_exists. split.
    + intros (key & Hin & Hno).
      destruct (forallb (obj_has context) group) eqn:Hall; [|reflexivity].
      rewrite forallb_forall in Hall. specialize (Hall key Hin). congruence.
    + intros Hall. induction group as [|key rest IH]; [discriminate|].
      simpl in Hall. destruct (obj_has context key) eqn:Hkey.
      * destruct (IH Hall) as (key' & Hin & Hno).
        exists key'. split; [now right | exact Hno].
      * exists key. split; [now left | exact Hkey].
  - rewrite Forall_forall. split.
    + intros Hnone.
      destruct (existsb (obj_has context) group) eqn:Hany; [|reflexivity].
      apply existsb_exists in Hany as (key & Hin & Hhas).
      specialize (Hnone key Hin). congruence.
    + intros Hany key Hin.
      destruct (obj_has context key) eqn:Hkey; [|reflexivity].
      assert (existsb (obj_has context) group = true)
        by (apply existsb_exists; now exists key).
      congruence.
Qed.

Lemma lacks_required_expectContext (rule : GroupRule) (context : obj)
    (keys : list keyEntry) :
  lacks_required rule context keys ->
  exists before entry after,
    keys = before ++ entry :: after
    /\ Forall (fun e => satisfied rule context e = true) before
    /\ lacks_entry rule context entry
    /\ expectContext rule context keys = Some (MissingContextError entry).
Proof.
  induction keys as [|entry rest IH]; intros H.
  - inversion H.
  - simpl. destruct (satisfied rule context entry) eqn:Hsat.
    + inversion H as [? ? Hhere | ? ? Hlater]; subst.
      * apply lacks_entry_unsatisfied in Hhere. congruence.
      * destruct (IH Hlater) as (before & entry' & after & -> & Hb & Hl & He).
        exists (entry :: before), entry', after.
        repeat split; try assumption. now constructor.
    + exists [], entry, rest. repeat split; [constructor|].
      now apply lacks_entry_unsatisfied.
Qed.

(** C5: on a factory that declares required context keys, a construction
    call ([make] or [create]) whose context lacks a required key, or lacks
    what a required key group asks for (a member of the group when a group
    needs all of its keys, every member when it needs any one of them: the
    specification gives both readings, and the statement holds under each),
    fails with a [MissingContextError] naming the first entry of the
    declaration that the context does not meet, and leaves the world as it
    was: the entity hook and the map function are not invoked and nothing is
    persisted. *)
Theorem missing_context_fails_before_any_effect (fuel : nat) (f : Factory U)
    (overrideParams context saveOptions : option obj)
    (keys : list keyEntry) (w : world U D) :
  requiredContextKeys f = Some keys ->
  lacks_required group_rule (or_empty context) keys ->
  exists before entry after,
    keys = before ++ entry :: after
    /\ Forall (fun e => satisfied group_rule (or_empty context) e = true)
              before
    /\ lacks_entry group_rule (or_empty context) entry
    /\ make (S fuel) f overrideParams context w
         = (Threw (MissingContextError entry), w)
    /\ create (S fuel) f overrideParams context saveOptions w
         = (Threw (MissingContextError entry), w).
Proof.
  intros Hkeys Hlacks.
  destruct (lacks_required_expectContext _ _ _ Hlacks)
    as (before & entry & after & Hsplit & Hbefore & Hentry & Hexp).
  exists before, entry, after. repeat split; try assumption.
  - unfold make, make_with. simpl.
    rewrite Hkeys, Hexp. reflexivity.
  - unfold create, create_with. simpl.
    rewrite Hkeys, Hexp. reflexivity.
Qed.

(** C6, amended: on a factory with no entity class in its definition-time
    options nor in its constructor-time overrides and with the inherited
    entity hook, every [make] and [create] call whose context passes the
    required-context validation fails with [NotImplementedError] as soon as
    the entity hook is invoked: nothing else happens and no entity is
    returned. *)
Theorem unconfigured_factory_is_not_implemented (fuel : nat) (f : Factory U)
    (overrideParams context saveOptions : option obj) (w : world U D) :
  opt_entity (options f) = None ->
  ov_entity (optionOverrides f) = None ->
  entity_method f = None ->
  context_accepted f (or_empty context) = true ->
  make (S fuel) f overrideParams context w
    = (Threw NotImplementedError,
       record_event (EvEntity None (or_empty context)) w)
  /\ create (S fuel) f overrideParams context saveOptions w
    = (Threw NotImplementedError,
       record_event (EvEntity None (or_empty context)) w).
Proof.
  intros Hopt Hov Hmethod Hctx.
  unfold make, create, make_with, create_with. simpl.
  unfold context_accepted in Hctx. unfold entity, entityClass.
  rewrite Hopt, Hov, Hmethod. simpl.
  destruct (requiredContextKeys f) as [keys|].
  - destruct (expectContext group_rule (or_empty context) keys); [discriminate|].
    split; reflexivity.
  - split; reflexivity.
Qed.

Lemma makeEntity_with_options (f : Factory U) (o o' : FactoryOptions)
    (fuel : nat) (overrideParams : obj) (context : option obj)
    (persist : bool) (saveOptions : option obj) :
  (ov_entity (optionOverrides f) = None -> opt_entity o = opt_entity o') ->
  (ov_requiredContextKeys (optionOverrides f) = None ->
   opt_requiredContextKeys o = opt_requiredContextKeys o') ->
  makeEntity fuel (with_options f o) overrideParams context persist
             saveOptions
  = makeEntity fuel (with_options f o') overrideParams context persist
               saveOptions.
Proof.
  intros Hentity Hkeys. destruct fuel as [|fuel]; [reflexivity|].
  simpl. unfold requiredContextKeys, entityClass, entity, finalize. simpl.
  destruct (ov_entity (optionOverrides f)) as [c|];
    destruct (ov_requiredContextKeys (optionOverrides f)) as [keys|];
    try rewrite (Hentity eq_refl); try rewrite (Hkeys eq_refl);
    reflexivity.
Qed.

(** *** Fuel *)

Lemma settles_as_refl {A : Type} (m : M U D A) : settles_as m m.
Proof. intros w w' r H _. exact H. Qed.

Lemma settles_as_bind {A B : Type} (m m' : M U D A) (k k' : A -> M U D B) :
  settles_as m m' ->
  (forall a, settles_as (k a) (k' a)) ->
  settles_as (bind m k) (bind m' k').
Proof.
  intros Hm Hk w w' r H Hr. unfold bind in *.
  destruct (m w) as [[a|e|] w1] eqn:E.
  - rewrite (Hm _ _ _ E) by discriminate. now apply Hk.
  - rewrite (Hm _ _ _ E) by discriminate. exact H.
  - inversion H; subst. contradiction.
Qed.

Section MoreFuel.

Variables makeEntity1 makeEntity2 :
  Factory U -> obj -> option obj -> bool -> option obj -> M U D obj.
Hypothesis more_fuel :
  forall f overrideParams context persist saveOptions,
    settles_as (makeEntity1 f overrideParams context persist saveOptions)
               (makeEntity2 f overrideParams context persist saveOptions).

Lemma resolveAttribute_more_fuel (persist : bool) (saveOptions : option obj)
    (e : obj) (attribute : string) :
  settles_as (resolveAttribute makeEntity1 persist saveOptions e attribute)
             (resolveAttribute makeEntity2 persist saveOptions e attribute).
Proof.
  unfold resolveAttribute.
  apply settles_as_bind; [apply settles_as_refl|]. intros e1.
  destruct (obj_get e attribute); try apply settles_as_refl.
  destruct persist.
  - apply settles_as_bind; [|intros r; apply settles_as_refl].
    unfold create_with.
    apply settles_as_bind; [apply more_fuel|].
    intros r. apply settles_as_refl.
  - apply settles_as_bind; [|intros r; apply settles_as_refl].
    unfold make_with. apply more_fuel.
Qed.

Lemma resolveAttributes_more_fuel (persist : bool)
    (saveOptions : option obj) :
  forall (attributes : list string) (e : obj),
    settles_as
      (resolveAttributes makeEntity1 persist saveOptions attributes e)
      (resolveAttributes makeEntity2 persist saveOptions attributes e).
Proof.
  induction attributes as [|attribute rest IH]; intros e; simpl.
  - apply settles_as_refl.
  - apply settles_as_bind; [apply resolveAttribute_more_fuel|].
    intros e'. apply IH.
Qed.

End MoreFuel.

(** Fuel only bounds the depth of nesting: what a construction settles on
    with some fuel, it settles on with more. *)
Lemma makeEntity_more_fuel :
  forall (fuel : nat) (f : Factory U) (overrideParams : obj)
         (context : option obj) (persist : bool) (saveOptions : option obj),
    settles_as
      (makeEntity fuel f overrideParams context persist saveOptions)
      (makeEntity (S fuel) f overrideParams context persist saveOptions).
Proof.
  induction fuel as [|fuel IH];
    intros f overrideParams context persist saveOptions.
  - intros w w' r H Hr. inversion H; subst. contradiction.
  - remember (S fuel) as fuel1 eqn:Hfuel. simpl. rewrite Hfuel at 1. simpl.
    apply settles_as_bind; [apply settles_as_refl|]. intros _.
    apply settles_as_bind; [apply settles_as_refl|]. intros e.
    apply settles_as_bind; [apply settles_as_refl|]. intros e'.
    apply settles_as_bind; [|intros resolved; apply settles_as_refl].
    unfold resolveEntity. apply resolveAttributes_more_fuel. exact IH.
Qed.

(** *** Frames *)

Section Frame.

Variable ok : event -> bool.
Variable sealed : bool.
Hypothesis ok_hooks :
  forall ev, is_persistence_event ev = false -> ok ev = true.

Lemma framed_pure {A : Type} (r : world U D -> result A) :
  framed (U := U) (D := D) (A := A) ok sealed (fun w => (r w, w)).
Proof.
  intros w. simpl. split; [reflexivity|].
  exists []. now rewrite app_nil_r.
Qed.

Lemma framed_bind {A B : Type} (m : M U D A) (k : A -> M U D B) :
  framed ok sealed m ->
  (forall a, framed ok sealed (k a)) ->
  framed ok sealed (bind m k).
Proof.
  intros Hm Hk w. unfold bind.
  specialize (Hm w).
  destruct (m w) as [[a|e|] w1]; simpl in Hm; try exact Hm.
  destruct Hm as (Hds & evs & Htr & Hevs).
  destruct (Hk a w1) as (Hds' & evs' & Htr' & Hevs').
  split.
  - intros Hs. now rewrite Hds', Hds.
  - exists (evs ++ evs'). split.
    + now rewrite Htr', Htr, app_assoc.
    + apply Forall_app. now split.
Qed.

Lemma framed_log (ev : event) :
  ok ev = true -> framed ok sealed (log (U := U) (D := D) ev).
Proof.
  intros Hev w. simpl. split; [reflexivity|].
  exists [ev]. split; [reflexivity|]. now constructor.
Qed.

Lemma framed_call_hook {A : Type} (h : hook (U := U) A) :
  framed ok sealed (call_hook (D := D) h).
Proof.
  intros w. unfold call_hook. destruct (h (user w)) as [r u]. simpl.
  split; [reflexivity|]. exists []. now rewrite app_nil_r.
Qed.

Lemma framed_entity (f : Factory U) (instance : option obj)
    (context : obj) :
  framed ok sealed (entity (D := D) f instance context).
Proof.
  unfold entity. apply framed_bind; [now apply framed_log, ok_hooks|].
  intros _. destruct (entity_method f) as [h|]; [apply framed_call_hook|].
  destruct instance; apply framed_pure.
Qed.

Lemma framed_finalize (f : Factory U) (e context : obj) :
  framed ok sealed (finalize (D := D) f e context).
Proof.
  unfold finalize. apply framed_bind; [now apply framed_log, ok_hooks|].
  intros _. destruct (finalize_method f) as [h|]; [apply framed_call_hook|].
  apply framed_pure.
Qed.

Lemma framed_set_dataSource (source : nat) (ds : dataSource (D := D)) :
  permissive ok sealed -> framed ok sealed (set_dataSource (U := U) source ds).
Proof.
  intros [Hopen _] w. simpl. split; [congruence|].
  exists []. now rewrite app_nil_r.
Qed.

Lemma framed_save (f : Factory U) (e : obj) (saveOptions : option obj) :
  permissive ok sealed -> framed ok sealed (save f e saveOptions).
Proof.
  intros Hopen. pose proof Hopen as [_ Hok]. unfold save.
  apply framed_bind.
  { unfold seedingSource.
    destruct (ov_seedingSource (optionOverrides f)); apply framed_pure. }
  intros source. apply framed_bind; [apply framed_pure|]. intros ds.
  apply framed_bind.
  { destruct (negb (isInitialized ds)); [|apply framed_pure].
    unfold initialize. apply framed_bind; [now apply framed_log|].
    intros _. apply framed_bind; [apply framed_pure|]. intros ds'.
    destruct (ds_initialize (store ds'));
      [apply framed_pure | now apply framed_set_dataSource]. }
  intros _. unfold manager_save.
  apply framed_bind; [now apply framed_log|]. intros _.
  apply framed_bind; [apply framed_pure|]. intros ds'.
  destruct (em_save (store ds') e saveOptions) as [r d].
  apply framed_bind; [now apply framed_set_dataSource|]. intros _.
  apply framed_pure.
Qed.

Variable makeEntity' :
  Factory U -> obj -> option obj -> bool -> option obj -> M U D obj.
Variable persist : bool.
Hypothesis persist_permissive : persist = true -> permissive ok sealed.
Hypothesis framed_makeEntity' :
  forall f overrideParams context saveOptions,
    framed ok sealed
           (makeEntity' f overrideParams context persist saveOptions).

Lemma framed_resolveAttribute (saveOptions : option obj) (e : obj)
    (attribute : string) :
  framed ok sealed
         (resolveAttribute makeEntity' persist saveOptions e attribute).
Proof.
  unfold resolveAttribute. apply framed_bind.
  - destruct (isPromiseLike (obj_get e attribute)); [|apply framed_pure].
    destruct (await (obj_get e attribute)); apply framed_pure.
  - intros e1. destruct (obj_get e attribute); try apply framed_pure.
    destruct persist eqn:Hp.
    + apply framed_bind; [|intros r; apply framed_pure].
      unfold create_with.
      apply framed_bind; [apply framed_makeEntity'|].
      intros r. now apply framed_save, persist_permissive.
    + apply framed_bind; [|intros r; apply framed_pure].
      unfold make_with. apply framed_makeEntity'.
Qed.

Lemma framed_resolveAttributes (saveOptions : option obj) :
  forall (attributes : list string) (e : obj),
    framed ok sealed
           (resolveAttributes makeEntity' persist saveOptions attributes e).
Proof.
  induction attributes as [|attribute rest IH]; intros e; simpl.
  - apply framed_pure.
  - apply framed_bind; [apply framed_resolveAttribute|].
    intros e'. apply IH.
Qed.

End Frame.

Lemma framed_makeEntity (ok : event -> bool) (sealed persist : bool) :
  (forall ev, is_persistence_event ev = false -> ok ev = true) ->
  (persist = true -> permissive ok sealed) ->
  forall (fuel : nat) (f : Factory U) (overrideParams : obj)
         (context saveOptions : option obj),
    framed ok sealed
           (makeEntity fuel f overrideParams context persist saveOptions).
Proof.
  intros Hhooks Hopen.
  induction fuel as [|fuel IH]; intros f overrideParams context saveOptions;
    simpl.
  - apply framed_pure.
  - apply framed_bind.
    { destruct (requiredContextKeys f) as [keys|]; [|apply framed_pure].
      destruct (expectContext _ _ keys); apply framed_pure. }
    intros _. apply framed_bind; [now apply framed_entity|]. intros e.
    apply framed_bind.
    { destruct (mapFunction f) as [fn|]; [|apply framed_pure].
      apply framed_bind; [now apply framed_log, Hhooks|]. intros _.
      apply framed_call_hook. }
    intros e'. apply framed_bind.
    { unfold resolveEntity. now apply framed_resolveAttributes. }
    intros resolved. apply framed_bind; [now apply framed_finalize|].
    intros finalized. apply framed_pure.
Qed.

Lemma framed_generate (ok : event -> bool) (sealed : bool)
    (f : Factory U) (context : obj) :
  (forall ev, is_persistence_event ev = false -> ok ev = true) ->
  framed ok sealed (generate (D := D) f context).
Proof.
  intros Hhooks. unfold generate.
  apply framed_bind; [now apply framed_entity|]. intros e.
  destruct (mapFunction f) as [fn|]; [|apply framed_pure].
  apply framed_bind; [now apply framed_log, Hhooks|]. intros _.
  apply framed_call_hook.
Qed.

Lemma framed_grows {A : Type} (ok : event -> bool) (sealed : bool)
    (m : M U D A) (w w' : world U D) (r : result A) :
  framed ok sealed m -> m w = (r, w') ->
  exists evs, trace w' = trace w ++ evs.
Proof.
  intros Hm Hrun. destruct (Hm w) as (_ & evs & Htr & _).
  rewrite Hrun in Htr. now exists evs.
Qed.

(** *** The steps of a construction *)

(** A construction that returns went through validation, generation,
    override merge, resolution and finalization, in this order. *)
Lemma makeEntity_returned (fuel : nat) (f : Factory U) (overrideParams : obj)
    (context : option obj) (persist : bool) (saveOptions : option obj)
    (w w' : world U D) (e : obj) :
  makeEntity (S fuel) f overrideParams context persist saveOptions w
    = (Returned e, w') ->
  exists produced wp resolved w1,
    context_accepted f (or_empty context) = true
    /\ generate f (or_empty context) w = (Returned produced, wp)
    /\ resolveEntity (makeEntity fuel) (applyOverrides produced overrideParams)
                     persist saveOptions wp = (Returned resolved, w1)
    /\ finalize f resolved (or_empty context) w1 = (Returned e, w').
Proof.
  simpl. intros H.
  apply bind_returned in H as ([] & wv & Hvalid & H).
  apply bind_returned in H as (e0 & we & Hentity & H).
  apply bind_returned in H as (produced & wp & Hmap & H).
  apply bind_returned in H as (resolved & w1 & Hresolve & H).
  apply bind_returned in H as (finalized & w2 & Hfinal & H).
  unfold ret in H. inversion H; subst finalized w2; clear H.
  assert (Hv : context_accepted f (or_empty context) = true /\ wv = w).
  { unfold context_accepted.
    destruct (requiredContextKeys f) as [keys|].
    - destruct (expectContext group_rule (or_empty context) keys);
        unfold throw, ret in Hvalid; inversion Hvalid; auto.
    - unfold ret in Hvalid. inversion Hvalid; auto. }
  destruct Hv as [Hacc ->].
  exists produced, wp, resolved, w1. repeat split; try assumption.
  unfold generate, bind. rewrite Hentity. exact Hmap.
Qed.

Lemma finalize_returned (f : Factory U) (e context e' : obj)
    (w w' : world U D) :
  finalize f e context w = (Returned e', w') ->
  trace w' = trace w ++ [EvFinalize e context]
  /\ dataSources w' = dataSources w.
Proof.
  unfold finalize, bind, log. simpl.
  destruct (finalize_method f) as [h|].
  - unfold call_hook. simpl. destruct (h e context (user w)) as [r u].
    intros H. inversion H; subst. now simpl.
  - unfold ret. intros H. inversion H; subst. now simpl.
Qed.

Lemma save_returned (f : Factory U) (e e' : obj) (saveOptions : option obj)
    (w w' : world U D) :
  save f e saveOptions w = (Returned e', w') ->
  exists source,
    ov_seedingSource (optionOverrides f) = Some source
    /\ trace w' = trace w
         ++ save_events source (isInitialized (dataSources w source))
                        e saveOptions.
Proof.
  unfold save, seedingSource. intros H.
  destruct (ov_seedingSource (optionOverrides f)) as [source|];
    [|discriminate].
  exists source. split; [reflexivity|].
  apply bind_returned in H as (source' & w1 & Hs & H).
  unfold ret in Hs. inversion Hs; subst source' w1; clear Hs.
  apply bind_returned in H as (ds & w1 & Hds & H).
  unfold get_dataSource in Hds. inversion Hds; subst ds w1; clear Hds.
  apply bind_returned in H as ([] & w1 & Hinit & H).
  assert (Htr1 : trace w1 = trace w
            ++ (if isInitialized (dataSources w source) then []
                else [EvInitialize source])).
  { destruct (isInitialized (dataSources w source)); simpl in Hinit.
    - unfold ret in Hinit. inversion Hinit. now rewrite app_nil_r.
    - unfold initialize, bind, log, get_dataSource in Hinit. simpl in Hinit.
      destruct (ds_initialize _); [discriminate|].
      unfold set_dataSource in Hinit. inversion Hinit. reflexivity. }
  unfold manager_save, bind, log, get_dataSource in H. simpl in H.
  destruct (em_save _ e saveOptions) as [r d]. simpl in H.
  inversion H; subst. unfold save_events.
  now rewrite Htr1, app_assoc.
Qed.

(** *** Override merge and resolution, attribute by attribute *)

Lemma obj_get_absent (o : obj) (k : string) :
  ~ In k (obj_keys o) -> obj_get o k = VUndefined.
Proof.
  rewrite obj_keys_has. induction o as [|[k' v'] rest IH]; simpl.
  - reflexivity.
  - destruct (String.eqb k' k); [congruence | exact IH].
Qed.

Lemma fold_overrides (overrideParams : obj) (k : string) :
  forall (keys : list string) (e : obj),
    let merged :=
      fold_left (fun e' key => obj_set e' key (obj_get overrideParams key))
                keys e in
    (In k keys -> obj_get merged k = obj_get overrideParams k)
    /\ (~ In k keys -> obj_get merged k = obj_get e k).
Proof.
  induction keys as [|a rest IH]; intros e; simpl.
  - split; [contradiction | reflexivity].
  - destruct (IH (obj_set e a (obj_get overrideParams a))) as [IHin IHout].
    destruct (in_dec string_dec k rest) as [Hin | Hout].
    + split; [auto | intros H; exfalso; apply H; now right].
    + split.
      * intros [-> | Hin]; [|contradiction].
        rewrite IHout by assumption. apply obj_get_set_same.
      * intros H. rewrite IHout by assumption.
        apply obj_get_set_other. intros ->. apply H. now left.
Qed.

Lemma applyOverrides_get (e overrideParams : obj) (k : string) :
  obj_get (applyOverrides e overrideParams) k =
  if obj_has overrideParams k then obj_get overrideParams k
  else obj_get e k.
Proof.
  unfold applyOverrides.
  destruct (fold_overrides overrideParams k (obj_keys overrideParams) e)
    as [Hin Hout].
  destruct (obj_has overrideParams k) eqn:Hhas.
  - apply Hin. now apply obj_keys_has.
  - apply Hout. rewrite obj_keys_has. congruence.
Qed.

Lemma obj_has_set (o : obj) (k k' : string) (v : value) :
  obj_has (obj_set o k v) k' = obj_has o k' || String.eqb k k'.
Proof.
  induction o as [|[k0 v0] rest IH]; simpl.
  - now destruct (String.eqb k k').
  - destruct (String.eqb k0 k) eqn:E; simpl.
    + apply String.eqb_eq in E. subst k0.
      destruct (String.eqb k k'); [reflexivity | now rewrite orb_false_r].
    + destruct (String.eqb k0 k'); [reflexivity | exact IH].
Qed.

Lemma obj_keys_set_present (o : obj) (k : string) (v : value) :
  obj_has o k = true -> obj_keys (obj_set o k v) = obj_keys o.
Proof.
  induction o as [|[k0 v0] rest IH]; simpl; [discriminate|].
  destruct (String.eqb k0 k) eqn:E; simpl; [reflexivity|].
  intros H. now rewrite IH.
Qed.

Lemma fold_overrides_has (overrideParams : obj) (k : string) :
  forall (keys : list string) (e : obj),
    obj_has
      (fold_left (fun e' key => obj_set e' key (obj_get overrideParams key))
                 keys e) k
    = obj_has e k || existsb (fun key => String.eqb key k) keys.
Proof.
  induction keys as [|a rest IH]; intros e; simpl.
  - now rewrite orb_false_r.
  - rewrite IH, obj_has_set. now rewrite orb_assoc.
Qed.

Lemma existsb_keys_has (o : obj) (k : string) :
  existsb (fun key => String.eqb key k) (obj_keys o) = obj_has o k.
Proof.
  destruct (obj_has o k) eqn:Hhas.
  - apply existsb_exists. exists k. split; [|apply String.eqb_refl].
    now apply obj_keys_has.
  - destruct (existsb _ (obj_keys o)) eqn:Hex; [|reflexivity].
    apply existsb_exists in Hex as (key & Hin & Heq).
    apply String.eqb_eq in Heq. subst key.
    apply obj_keys_has in Hin. congruence.
Qed.

Lemma resolveAttribute_keys
    (makeEntity' :
       Factory U -> obj -> option obj -> bool -> option obj -> M U D obj)
    (persist : bool) (saveOptions : option obj) (e e' : obj)
    (attribute : string) (w w' : world U D) :
  obj_has e attribute = true ->
  resolveAttribute makeEntity' persist saveOptions e attribute w
    = (Returned e', w') ->
  obj_keys e' = obj_keys e.
Proof.
  intros Hhas. unfold resolveAttribute.
  destruct (obj_get e attribute)
    as [| s | n | settled | reason | ref | fields]; simpl;
    unfold bind, ret, throw;
    try (intros H; inversion H; subst; reflexivity).
  - destruct (await settled) as [err | v]; [discriminate|].
    intros H. inversion H; subst. now apply obj_keys_set_present.
  - destruct persist.
    + destruct (create_with makeEntity' (lookupFactory ref) None saveOptions
                            None w) as [[r|err|] w1]; try discriminate.
      intros H. inversion H; subst. now apply obj_keys_set_present.
    + destruct (make_with makeEntity' (lookupFactory ref) None None w)
        as [[r|err|] w1]; try discriminate.
      intros H. inversion H; subst. now apply obj_keys_set_present.
Qed.

Lemma resolveAttributes_keys
    (makeEntity' :
       Factory U -> obj -> option obj -> bool -> option obj -> M U D obj)
    (persist : bool) (saveOptions : option obj) :
  forall (attributes : list string) (e e' : obj) (w w' : world U D),
    (forall a, In a attributes -> In a (obj_keys e)) ->
    resolveAttributes makeEntity' persist saveOptions attributes e w
      = (Returned e', w') ->
    obj_keys e' = obj_keys e.
Proof.
  induction attributes as [|a rest IH]; intros e e' w w' Hin H; simpl in H.
  - unfold ret in H. now inversion H.
  - apply bind_returned in H as (e1 & w1 & Hone & Hrest).
    assert (Hkeys : obj_keys e1 = obj_keys e).
    { eapply resolveAttribute_keys; [|exact Hone].
      apply obj_keys_has, Hin. now left. }
    rewrite <- Hkeys. eapply IH; [|exact Hrest].
    intros a' Ha'. rewrite Hkeys. apply Hin. now right.
Qed.

Lemma resolveAttributes_app
    (makeEntity' :
       Factory U -> obj -> option obj -> bool -> option obj -> M U D obj)
    (persist : bool) (saveOptions : option obj) (l2 : list string) :
  forall (l1 : list string) (e : obj) (w : world U D),
    resolveAttributes makeEntity' persist saveOptions (l1 ++ l2) e w
    = (e1 <- resolveAttributes makeEntity' persist saveOptions l1 e;;
       resolveAttributes makeEntity' persist saveOptions l2 e1) w.
Proof.
  induction l1 as [|a rest IH]; intros e w; simpl.
  - reflexivity.
  - unfold bind.
    destruct (resolveAttribute makeEntity' persist saveOptions e a w)
      as [[e1|err|] w1]; try reflexivity.
    rewrite IH. reflexivity.
Qed.

(** One turn of the loop: the other attributes are left alone, and the
    attribute of the turn is replaced according to the value it had. *)
Lemma resolveAttribute_step
    (makeEntity' :
       Factory U -> obj -> option obj -> bool -> option obj -> M U D obj)
    (persist : bool) (saveOptions : option obj) (e e' : obj)
    (attribute : string) (w w' : world U D) :
  resolveAttribute makeEntity' persist saveOptions e attribute w
    = (Returned e', w') ->
  (forall k, k <> attribute -> obj_get e' k = obj_get e k)
  /\ match obj_get e attribute with
     | VFactory ref =>
         exists r,
           (if persist
            then create_with makeEntity' (lookupFactory ref) None saveOptions
                             None w
            else make_with makeEntity' (lookupFactory ref) None None w)
           = (Returned r, w')
           /\ obj_get e' attribute = VObject r
     | VPromise _ | VRejected _ =>
         w' = w /\ await (obj_get e attribute) = inr (obj_get e' attribute)
     | _ => obj_get e' attribute = obj_get e attribute /\ w' = w
     end.
Proof.
  unfold resolveAttribute.
  destruct (obj_get e attribute) as [| s | n | settled | reason | ref | fields]
    eqn:Hv; simpl; unfold bind, ret, throw;
    try (intros H; inversion H; subst; now rewrite ?Hv).
  - destruct (await settled) as [err | v] eqn:Hawait; [discriminate|].
    intros H. inversion H; subst. split.
    + intros k Hk. apply obj_get_set_other. congruence.
    + now rewrite obj_get_set_same.
  - destruct persist.
    + destruct (create_with makeEntity' (lookupFactory ref) None saveOptions
                            None w) as [[r|err|] w1]; try discriminate.
      intros H. inversion H; subst. split.
      * intros k Hk. apply obj_get_set_other. congruence.
      * exists r. now rewrite obj_get_set_same.
    + destruct (make_with makeEntity' (lookupFactory ref) None None w)
        as [[r|err|] w1]; try discriminate.
      intros H. inversion H; subst. split.
      * intros k Hk. apply obj_get_set_other. congruence.
      * exists r. now rewrite obj_get_set_same.
Qed.

Lemma resolveAttributes_untouched
    (makeEntity' :
       Factory U -> obj -> option obj -> bool -> option obj -> M U D obj)
    (persist : bool) (saveOptions : option obj) (k : string) :
  forall (attributes : list string) (e e' : obj) (w w' : world U D),
    ~ In k attributes ->
    resolveAttributes makeEntity' persist saveOptions attributes e w
      = (Returned e', w') ->
    obj_get e' k = obj_get e k.
Proof.
  induction attributes as [|a rest IH]; intros e e' w w' Hk H; simpl in H.
  - unfold ret in H. now inversion H.
  - apply bind_returned in H as (e1 & w1 & Hone & Hrest).
    destruct (resolveAttribute_step _ _ _ _ _ _ _ _ Hone) as [Hothers _].
    rewrite (IH _ _ _ _ (fun Hin => Hk (or_intror Hin)) Hrest).
    apply Hothers. intros ->. apply Hk. now left.
Qed.

Lemma framed_all_makeEntity (fuel : nat) (persist : bool) (f : Factory U)
    (overrideParams : obj) (context saveOptions : option obj) :
  framed all_events false
         (makeEntity fuel f overrideParams context persist saveOptions).
Proof.
  apply framed_makeEntity; auto. intros _. split; auto.
Qed.

Lemma framed_all_resolveAttributes (fuel : nat) (persist : bool)
    (saveOptions : option obj) (attributes : list string) (e : obj) :
  framed all_events false
         (resolveAttributes (makeEntity fuel) persist saveOptions attributes e).
Proof.
  apply framed_resolveAttributes; auto.
  - intros _. split; auto.
  - intros. apply framed_all_makeEntity.
Qed.

(** A [create] that returns ended with the save of what it constructed. *)
Lemma create_returned_saved (fuel : nat) (f : Factory U)
    (overrideParams context saveOptions : option obj) (w w' : world U D)
    (e : obj) :
  create fuel f overrideParams context saveOptions w = (Returned e, w') ->
  exists source saved evs,
    trace w' = trace w ++ evs ++ [EvSave source saved saveOptions].
Proof.
  unfold create, create_with. intros H.
  apply bind_returned in H as (saved & w1 & Hmake & Hsave).
  destruct (framed_grows _ _ _ _ _ _
              (framed_all_makeEntity _ _ _ _ _ _) Hmake) as (evs1 & Htr1).
  destruct (save_returned _ _ _ _ _ _ Hsave) as (source & _ & Htr2).
  exists source, saved,
    (evs1 ++ if isInitialized (dataSources w1 source) then []
             else [EvInitialize source]).
  rewrite Htr2, Htr1. unfold save_events. now rewrite <- !app_assoc.
Qed.

(** What [resolveEntity] does at each attribute of the entity it is given. *)
Lemma resolveEntity_attribute (fuel : nat) (persist : bool)
    (saveOptions : option obj) (merged resolved : obj)
    (wp w1 : world U D) (k : string) :
  resolveEntity (makeEntity fuel) merged persist saveOptions wp
    = (Returned resolved, w1) ->
  obj_has merged k = true ->
  resolved_attribute fuel persist saveOptions merged wp k
                     (obj_get merged k) (obj_get resolved k) w1.
Proof.
  unfold resolveEntity. intros H Hhas.
  apply obj_keys_has in Hhas.
  destruct (in_split _ _ Hhas) as (before & after & Hsplit).
  pose proof (obj_keys_NoDup merged) as Hnd. rewrite Hsplit in Hnd.
  apply NoDup_remove_2 in Hnd.
  rewrite Hsplit, resolveAttributes_app in H.
  apply bind_returned in H as (e_before & w_before & Hbefore & H).
  simpl in H. apply bind_returned in H as (e_after & w_after & Hone & Hafter).
  assert (Hvb : obj_get e_before k = obj_get merged k).
  { eapply resolveAttributes_untouched; [|exact Hbefore].
    intros Hin. apply Hnd, in_or_app. now left. }
  assert (Hva : obj_get resolved k = obj_get e_after k).
  { eapply resolveAttributes_untouched; [|exact Hafter].
    intros Hin. apply Hnd, in_or_app. now right. }
  destruct (framed_grows _ _ _ _ _ _
              (framed_all_resolveAttributes _ _ _ _ _) Hafter)
    as (later & Hlater).
  destruct (resolveAttribute_step _ _ _ _ _ _ _ _ Hone) as [_ Hstep].
  rewrite Hvb in Hstep. rewrite Hva.
  exists before, after, e_before, w_before.
  split; [exact Hsplit|]. split; [exact Hbefore|].
  destruct (obj_get merged k) as [| s | n | settled | reason | ref | fields];
    try (now destruct Hstep).
  - destruct Hstep as [_ Hawait]. exists (obj_get e_after k). now split.
  - destruct Hstep as (r & Hcall & Hr).
    exists r, w_after. split; [exact Hr|]. split; [now exists later|].
    destruct persist; [|exact Hcall].
    fold (create fuel (lookupFactory ref) None saveOptions None) in Hcall.
    destruct (create_returned_saved _ _ _ _ _ _ _ _ Hcall)
      as (source & saved & evs & Htr).
    now exists saveOptions, None, source, saved, evs.
Qed.

Lemma finalize_keeps (f : Factory U) (e context e' : obj)
    (w w' : world U D) :
  finalize_keeps_entity f ->
  finalize f e context w = (Returned e', w') -> e' = e.
Proof.
  unfold finalize_keeps_entity, finalize, bind, log. simpl.
  destruct (finalize_method f) as [h|].
  - intros Hkeep. unfold call_hook. simpl.
    destruct (h e context (user w)) as [r u] eqn:Hh.
    destruct r as [err | e0]; simpl; [discriminate|].
    intros H. inversion H; subst. apply (Hkeep e context (user w)).
    now rewrite Hh.
  - intros _ H. unfold ret in H. now inversion H.
Qed.

(** C4, amended: for every factory whose finalize hook leaves the entity as
    it got it and every override set [O] with plain values, an entity that
    [make(O)] returns has the attributes of the entity that the entity hook
    followed by the map function produced, and those [O] names; each
    attribute named in [O] has exactly the value given in [O]; and each
    attribute not named in [O] is the resolution, in this very call, of what
    the entity hook followed by the map function produced for it: that value
    itself when it is plain, what it settles to when it is promise-like (a
    promise that settles to a factory instance aside), the entity its factory
    makes, called where the resolution of the attributes before it led,
    when it is a factory instance. *)
Theorem make_applies_overrides_then_resolves (fuel : nat) (f : Factory U)
    (overrideParams context : option obj) (w w' : world U D) (e : obj) :
  finalize_keeps_entity f ->
  plain_object (or_empty overrideParams) = true ->
  make fuel f overrideParams context w = (Returned e, w') ->
  exists fuel' produced wp w1,
    fuel = S fuel'
    /\ generate f (or_empty context) w = (Returned produced, wp)
    /\ finalize f e (or_empty context) w1 = (Returned e, w')
    /\ obj_keys e = obj_keys (applyOverrides produced (or_empty overrideParams))
    /\ (forall k, obj_has (or_empty overrideParams) k = true ->
                  obj_get e k = obj_get (or_empty overrideParams) k)
    /\ (forall k, obj_has (or_empty overrideParams) k = false ->
                  obj_has produced k = true ->
                  resolved_attribute
                    fuel' false None
                    (applyOverrides produced (or_empty overrideParams)) wp k
                    (obj_get produced k) (obj_get e k) w1).
Proof.
  intros Hkeep Hplain. unfold make, make_with. intros H.
  destruct fuel as [|fuel']; [discriminate|].
  apply makeEntity_returned in H
    as (produced & wp & resolved & w1 & _ & Hgen & Hres & Hfin).
  simpl in Hgen, Hfin.
  pose proof (finalize_keeps _ _ _ _ _ _ Hkeep Hfin). subst e.
  exists fuel', produced, wp, w1. repeat split; try assumption.
  - unfold resolveEntity in Hres.
    eapply resolveAttributes_keys; [|exact Hres]. auto.
  - intros k Hk.
    assert (Hhas : obj_has (applyOverrides produced
                                           (or_empty overrideParams)) k = true).
    { unfold applyOverrides.
      now rewrite fold_overrides_has, existsb_keys_has, Hk, orb_true_r. }
    pose proof (resolveEntity_attribute _ _ _ _ _ _ _ k Hres Hhas) as Hr.
    rewrite applyOverrides_get, Hk in Hr.
    destruct Hr as (before & after & e_b & w_b & _ & _ & Hr).
    unfold plain_object in Hplain. rewrite forallb_forall in Hplain.
    apply obj_keys_has in Hk. specialize (Hplain k Hk).
    apply negb_true_iff in Hplain.
    destruct (obj_get (or_empty overrideParams) k);
      simpl in Hplain; try discriminate; exact Hr.
  - intros k Hk Hproduced.
    assert (Hhas : obj_has (applyOverrides produced
                                           (or_empty overrideParams)) k = true).
    { unfold applyOverrides.
      now rewrite fold_overrides_has, existsb_keys_has, Hproduced. }
    pose proof (resolveEntity_attribute _ _ _ _ _ _ _ k Hres Hhas) as Hr.
    now rewrite applyOverrides_get, Hk in Hr.
Qed.

(** C1, amended: whenever [create] returns, the finalize hook was invoked
    on the entity as the attribute resolution of this call left it: the
    entity that the entity hook and the map function produced, with the
    overrides merged in, was resolved with every factory-valued attribute
    replaced by the entity that a nested [create] returned, that nested
    entity having been saved before the resolution ended.  The save of the
    entity itself through the persistence collaborator came after the
    finalize hook, as the last step: the events of the call end with the
    finalize and then the save (preceded by the initialization of the data
    source when it was due) of the finalized entity. *)
Theorem create_finalizes_then_saves (fuel : nat) (f : Factory U)
    (overrideParams context saveOptions : option obj)
    (w w' : world U D) (e : obj) :
  create fuel f overrideParams context saveOptions w = (Returned e, w') ->
  exists fuel' produced wp resolved w1 finalized w2 source pre,
    fuel = S fuel'
    /\ generate f (or_empty context) w = (Returned produced, wp)
    /\ resolveEntity (makeEntity fuel')
                     (applyOverrides produced (or_empty overrideParams))
                     true saveOptions wp = (Returned resolved, w1)
    /\ (forall k ref,
          obj_get (applyOverrides produced (or_empty overrideParams)) k
            = VFactory ref ->
          resolved_attribute
            fuel' true saveOptions
            (applyOverrides produced (or_empty overrideParams)) wp k
            (VFactory ref) (obj_get resolved k) w1)
    /\ finalize f resolved (or_empty context) w1 = (Returned finalized, w2)
    /\ save f finalized saveOptions w2 = (Returned e, w')
    /\ trace w1 = trace w ++ pre
    /\ trace w' = trace w ++ pre
         ++ EvFinalize resolved (or_empty context)
         :: save_events source (isInitialized (dataSources w2 source))
                        finalized saveOptions.
Proof.
  unfold create, create_with. intros H.
  apply bind_returned in H as (finalized & w2 & Hmake & Hsave).
  destruct fuel as [|fuel']; [discriminate|].
  apply makeEntity_returned in Hmake
    as (produced & wp & resolved & w1 & _ & Hgen & Hres & Hfin).
  simpl in Hgen, Hfin.
  assert (Hall : forall ev : event, (fun _ : event => true) ev = true)
    by reflexivity.
  destruct (framed_grows (fun _ => true) false _ _ _ _
              (framed_generate _ _ f (or_empty context) (fun ev _ => Hall ev))
              Hgen) as (evs1 & Htr1).
  assert (Hframed : framed (fun _ => true) false
            (resolveEntity (makeEntity fuel')
               (applyOverrides produced (or_empty overrideParams))
               true saveOptions)).
  { unfold resolveEntity. apply framed_resolveAttributes; auto.
    - intros _. split; auto.
    - intros. apply framed_makeEntity; auto. intros _. split; auto. }
  destruct (framed_grows _ _ _ _ _ _ Hframed Hres) as (evs2 & Htr2).
  destruct (finalize_returned _ _ _ _ _ _ Hfin) as [Htr3 _].
  destruct (save_returned _ _ _ _ _ _ Hsave) as (source & _ & Htr4).
  exists fuel', produced, wp, resolved, w1, finalized, w2, source,
    (evs1 ++ evs2).
  repeat split; try assumption.
  - intros k ref Hk.
    assert (Hhas : obj_has (applyOverrides produced
                                           (or_empty overrideParams)) k = true).
    { apply obj_keys_has.
      destruct (in_dec string_dec k
                  (obj_keys (applyOverrides produced
                                            (or_empty overrideParams))))
        as [Hin | Hout]; [exact Hin|].
      rewrite (obj_get_absent _ _ Hout) in Hk. discriminate. }
    pose proof (resolveEntity_attribute _ _ _ _ _ _ _ k Hres Hhas) as Hr.
    now rewrite Hk in Hr.
  - now rewrite Htr2, Htr1, app_assoc.
  - rewrite Htr4, Htr3, Htr2, Htr1. now rewrite <- !app_assoc.
Qed.

(** *** The configuration in force *)

Lemma entity_logs_first (f : Factory U) (instance : option obj)
    (context : obj) (w w1 : world U D) (r : result obj) :
  entity f instance context w = (r, w1) ->
  trace w1 = trace w ++ [EvEntity instance context].
Proof.
  unfold entity, bind, log. simpl.
  destruct (entity_method f) as [h|].
  - unfold call_hook. simpl. destruct (h _ _ (user w)) as [r0 u].
    intros H. inversion H; subst. reflexivity.
  - destruct instance; unfold ret, throw; intros H; inversion H; subst;
      reflexivity.
Qed.

Lemma bind_first_event {A B : Type} (m : M U D A) (k : A -> M U D B)
    (ev : event) (w : world U D) :
  (forall a, framed all_events false (k a)) ->
  (exists evs, trace (snd (m w)) = trace w ++ ev :: evs) ->
  exists evs, trace (snd (bind m k w)) = trace w ++ ev :: evs.
Proof.
  intros Hk (evs & Htr). unfold bind.
  destruct (m w) as [[a|err|] w1]; simpl in Htr; try (now exists evs).
  destruct (Hk a w1) as (_ & evs' & Htr' & _).
  exists (evs ++ evs'). rewrite Htr', Htr. now rewrite <- app_assoc.
Qed.

Lemma makeEntity_starts_with_entity (fuel : nat) (f : Factory U)
    (overrideParams : obj) (context : option obj) (persist : bool)
    (saveOptions : option obj) (w : world U D) :
  context_accepted f (or_empty context) = true ->
  exists evs,
    trace (snd (makeEntity (S fuel) f overrideParams context persist
                           saveOptions w))
    = trace w
      ++ EvEntity (option_map class_new (entityClass f)) (or_empty context)
      :: evs.
Proof.
  intros Hctx. simpl. unfold context_accepted in Hctx.
  assert (Hvalid :
            match requiredContextKeys f with
            | Some keys =>
                match expectContext group_rule (or_empty context) keys with
                | Some err => throw err
                | None => ret tt
                end
            | None => ret tt
            end = ret (U := U) (D := D) tt).
  { destruct (requiredContextKeys f) as [keys|]; [|reflexivity].
    now destruct (expectContext group_rule (or_empty context) keys). }
  rewrite Hvalid. unfold bind at 1. unfold ret at 1.
  apply bind_first_event.
  - intros e. apply framed_bind.
    { destruct (mapFunction f) as [fn|]; [|apply framed_pure].
      apply framed_bind; [now apply framed_log|]. intros _.
      apply framed_call_hook. }
    intros e'. apply framed_bind.
    { unfold resolveEntity. apply framed_all_resolveAttributes. }
    intros resolved. apply framed_bind; [now apply framed_finalize|].
    intros finalized. apply framed_pure.
  - destruct (entity f (option_map class_new (entityClass f))
                     (or_empty context) w) as [r w1] eqn:Hentity.
    exists []. simpl. now apply entity_logs_first in Hentity.
Qed.

Lemma constructs_with_in_force (f : Factory U) :
  constructs_with f (entityClass f) (requiredContextKeys f).
Proof.
  intros fuel overrideParams context saveOptions w.
  destruct (match requiredContextKeys f with
            | Some ks => expectContext group_rule (or_empty context) ks
            | None => None
            end) as [err|] eqn:Hguard.
  - destruct (requiredContextKeys f) as [keys|] eqn:Hkeys; [|discriminate].
    unfold make, create, make_with, create_with. simpl.
    rewrite Hkeys, Hguard. split; reflexivity.
  - assert (Hctx : context_accepted f (or_empty context) = true).
    { unfold context_accepted.
      destruct (requiredContextKeys f) as [keys|]; [|reflexivity].
      now rewrite Hguard. }
    split.
    + unfold make, make_with.
      apply (makeEntity_starts_with_entity
               fuel f _ (Some (or_empty context)) false None w Hctx).
    + unfold create, create_with. apply bind_first_event.
      * intros e. apply framed_save. now split.
      * apply (makeEntity_starts_with_entity
                 fuel f _ (Some (or_empty context)) true saveOptions w Hctx).
Qed.

(** C9: every construction call uses the configuration of the
    constructor-time overrides where they set it, whatever the
    definition-time options say, and the definition-time value only where
    the overrides are silent.  The entity class in force is the one the
    entity hook gets a fresh instance of, as the first thing a call does
    once the context has passed; the required context keys in force are the
    ones the context is validated against, before anything else.  And two
    definitions that differ only in items the overrides set construct
    alike, under [make] and under [create]. *)
Theorem override_time_configuration_wins (f : Factory U) :
  (forall c keys,
      ov_entity (optionOverrides f) = Some c ->
      ov_requiredContextKeys (optionOverrides f) = Some keys ->
      constructs_with f (Some c) (Some keys))
  /\ (forall c,
        ov_entity (optionOverrides f) = Some c ->
        ov_requiredContextKeys (optionOverrides f) = None ->
        constructs_with f (Some c) (opt_requiredContextKeys (options f)))
  /\ (forall keys,
        ov_entity (optionOverrides f) = None ->
        ov_requiredContextKeys (optionOverrides f) = Some keys ->
        constructs_with f (opt_entity (options f)) (Some keys))
  /\ (ov_entity (optionOverrides f) = None ->
      ov_requiredContextKeys (optionOverrides f) = None ->
      constructs_with f (opt_entity (options f))
                      (opt_requiredContextKeys (options f)))
  /\ (forall o o' fuel overrideParams context saveOptions,
        (ov_entity (optionOverrides f) = None ->
         opt_entity o = opt_entity o') ->
        (ov_requiredContextKeys (optionOverrides f) = None ->
         opt_requiredContextKeys o = opt_requiredContextKeys o') ->
        make fuel (with_options f o) overrideParams context
          = make fuel (with_options f o') overrideParams context
        /\ create fuel (with_options f o) overrideParams context saveOptions
          = create fuel (with_options f o') overrideParams context
                   saveOptions).
Proof.
  pose proof (constructs_with_in_force f) as H.
  unfold entityClass, requiredContextKeys in H.
  repeat split.
  - intros c keys Hc Hk. now rewrite Hc, Hk in H.
  - intros c Hc Hk. now rewrite Hc, Hk in H.
  - intros keys Hc Hk. now rewrite Hc, Hk in H.
  - intros Hc Hk. now rewrite Hc, Hk in H.
  - unfold make, make_with.
    now rewrite (makeEntity_with_options f o o').
  - unfold create, create_with.
    now rewrite (makeEntity_with_options f o o').
Qed.

(** C8: whatever the factory, the overrides, the context and the depth of
    the factories nested in its attributes, [make] leaves the persistence
    collaborator alone: every data source is as it was (none has been
    initialized) and no event it adds is an initialization or a save. *)
Theorem make_leaves_persistence_alone (fuel : nat) (f : Factory U)
    (overrideParams context : option obj) :
  leaves_persistence_alone (make fuel f overrideParams context).
Proof.
  unfold make, make_with, leaves_persistence_alone.
  apply framed_makeEntity.
  - intros ev Hev. now rewrite Hev.
  - discriminate.
Qed.

End Properties.

(** ** The pipeline on the fixtures *)

Import Fixtures.

(** C1 as stated fails: [userFactory.create()] invokes the finalize hook on
    the entity before any save; the entity the hook sees has no identity
    yet, and the save of that entity is the last event of the call. *)
Lemma finalize_runs_before_save :
  run (create 1 userFactory None None None) =
    (Returned [("name", VString "A"); ("id", VNumber 1)],
     [EvEntity (Some []) [];
      EvFinalize [("name", VString "A")] [];
      EvSave 0 [("name", VString "A")] None])
  /\ save_before_each_finalize
       false (snd (run (create 1 userFactory None None None))) = false.
Proof. split; reflexivity. Qed.

Lemma create_finalizes_then_saves_witness :
  exists fuel' produced wp resolved w1 finalized w2 source pre,
    2%nat = S fuel'
    /\ generate petFactory [] w0 = (Returned produced, wp)
    /\ resolveEntity (makeEntity fuel') (applyOverrides produced [])
                     true None wp = (Returned resolved, w1)
    /\ (forall k ref,
          obj_get (applyOverrides produced []) k = VFactory ref ->
          resolved_attribute fuel' true None (applyOverrides produced []) wp k
                             (VFactory ref) (obj_get resolved k) w1)
    /\ finalize petFactory resolved [] w1 = (Returned finalized, w2)
    /\ save petFactory finalized None w2
         = (Returned
              [("name", VString "A");
               ("owner", VObject [("name", VString "B"); ("id", VNumber 1)]);
               ("id", VNumber 2)],
            snd (create 2 petFactory None None None w0))
    /\ trace w1 = trace w0 ++ pre
    /\ trace (snd (create 2 petFactory None None None w0))
       = trace w0 ++ pre
         ++ EvFinalize resolved []
         :: save_events source (isInitialized (dataSources w2 source))
                        finalized None.
Proof.
  exact (create_finalizes_then_saves
           2 petFactory None None None w0
           (snd (create 2 petFactory None None None w0))
           [("name", VString "A");
            ("owner", VObject [("name", VString "B"); ("id", VNumber 1)]);
            ("id", VNumber 2)]
           eq_refl).
Defined.

(** C2 at [petFactory.create({}, {}, { reload: 0 })]: the nested
    [userFactory.create] receives the save options as its context (its
    entity and finalize hooks are called with them) and saves with no save
    options; only the outer save carries them. *)
Lemma nested_create_gets_save_options_as_context :
  run (create 2 petFactory None None (Some [("reload", VNumber 0)])) =
    (Returned
       [("name", VString "A");
        ("owner", VObject [("name", VString "B"); ("id", VNumber 1)]);
        ("id", VNumber 2)],
     [EvEntity (Some []) [];
      EvEntity (Some []) [("reload", VNumber 0)];
      EvFinalize [("name", VString "B")] [("reload", VNumber 0)];
      EvSave 0 [("name", VString "B")] None;
      EvFinalize
        [("name", VString "A");
         ("owner", VObject [("name", VString "B"); ("id", VNumber 1)])] [];
      EvSave 0
        [("name", VString "A");
         ("owner", VObject [("name", VString "B"); ("id", VNumber 1)])]
        (Some [("reload", VNumber 0)])]).
Proof. reflexivity. Qed.

(** C3 at a factory whose entity hook sets [owner] to a promise of a factory:
    [make] and [create] return, and [create] saves, an entity whose [owner]
    is the factory instance itself. *)
Lemma promised_factory_is_left_in_the_entity :
  run (make 2 asyncOwnerFactory None None) =
    (Returned [("owner", VFactory 1)],
     [EvEntity (Some []) []; EvFinalize [("owner", VFactory 1)] []])
  /\ fully_resolved [("owner", VFactory 1)] = false
  /\ run (create 2 asyncOwnerFactory None None None) =
    (Returned [("owner", VFactory 1); ("id", VNumber 1)],
     [EvEntity (Some []) []; EvFinalize [("owner", VFactory 1)] [];
      EvSave 0 [("owner", VFactory 1)] None])
  /\ fully_resolved [("owner", VFactory 1); ("id", VNumber 1)] = false.
Proof. repeat split; reflexivity. Qed.

(** C4 as stated fails twice.  [petFactory.make({ name: 'Rex' })]: the
    entity hook produced a factory for [owner], which the overrides do not
    name, and the entity returned has the made user there.
    [finalizingFactory.make({ name: 'Rex' })]: the attribute the overrides
    name has the value the finalize hook gave it. *)
Lemma make_returns_other_than_produced_or_overridden :
  plain_object [("name", VString "Rex")] = true
  /\ obj_has [("name", VString "Rex")] "owner" = false
  /\ fst (generate (D := D) petFactory [] w0)
       = Returned [("name", VString "A"); ("owner", VFactory 1)]
  /\ fst (make 2 petFactory (Some [("name", VString "Rex")]) None w0)
       = Returned [("name", VString "Rex");
                   ("owner", VObject [("name", VString "B")])]
  /\ fst (make 1 finalizingFactory (Some [("name", VString "Rex")]) None w0)
       = Returned [("name", VString "Finalized")].
Proof. repeat split; reflexivity. Qed.

Lemma make_applies_overrides_then_resolves_witness :
  exists fuel' produced wp w1,
    2%nat = S fuel'
    /\ generate petFactory [] w0 = (Returned produced, wp)
    /\ finalize petFactory
                [("name", VString "Rex");
                 ("owner", VObject [("name", VString "B")])] [] w1
       = (Returned [("name", VString "Rex");
                    ("owner", VObject [("name", VString "B")])],
          snd (make 2 petFactory (Some [("name", VString "Rex")]) None w0))
    /\ obj_keys [("name", VString "Rex");
                 ("owner", VObject [("name", VString "B")])]
       = obj_keys (applyOverrides produced [("name", VString "Rex")])
    /\ (forall k, obj_has [("name", VString "Rex")] k = true ->
          obj_get [("name", VString "Rex");
                   ("owner", VObject [("name", VString "B")])] k
          = obj_get [("name", VString "Rex")] k)
    /\ (forall k, obj_has [("name", VString "Rex")] k = false ->
          obj_has produced k = true ->
          resolved_attribute
            fuel' false None
            (applyOverrides produced [("name", VString "Rex")]) wp k
            (obj_get produced k)
            (obj_get [("name", VString "Rex");
                      ("owner", VObject [("name", VString "B")])] k) w1).
Proof.
  exact (make_applies_overrides_then_resolves
           2 petFactory (Some [("name", VString "Rex")]) None w0
           (snd (make 2 petFactory (Some [("name", VString "Rex")]) None w0))
           [("name", VString "Rex");
            ("owner", VObject [("name", VString "B")])]
           I eq_refl eq_refl).
Defined.

Lemma missing_context_fails_before_any_effect_witness :
  (exists before entry after,
      [KeyGroup ["region"; "zone"]] = before ++ entry :: after
      /\ Forall (fun e => satisfied AllOf [("region", VString "eu")] e = true)
                before
      /\ lacks_entry AllOf [("region", VString "eu")] entry
      /\ make 1 twiceConfigured None (Some [("region", VString "eu")]) w0
           = (Threw (MissingContextError entry), w0)
      /\ create 1 twiceConfigured None (Some [("region", VString "eu")])
                None w0
           = (Threw (MissingContextError entry), w0))
  /\ (exists before entry after,
        [KeyGroup ["region"; "zone"]] = before ++ entry :: after
        /\ Forall (fun e => satisfied AnyOf [("tenant", VString "acme")] e
                            = true) before
        /\ lacks_entry AnyOf [("tenant", VString "acme")] entry
        /\ make (env := Offline.any_of) 1 twiceConfigured None
                (Some [("tenant", VString "acme")]) w0
             = (Threw (MissingContextError entry), w0)
        /\ create (env := Offline.any_of) 1 twiceConfigured None
                  (Some [("tenant", VString "acme")]) None w0
             = (Threw (MissingContextError entry), w0)).
Proof.
  split.
  - refine (missing_context_fails_before_any_effect
              0 twiceConfigured None (Some [("region", VString "eu")]) None
              [KeyGroup ["region"; "zone"]] w0 eq_refl _).
    constructor. simpl. apply Exists_cons_tl. now constructor.
  - refine (missing_context_fails_before_any_effect
              (env := Offline.any_of)
              0 twiceConfigured None (Some [("tenant", VString "acme")]) None
              [KeyGroup ["region"; "zone"]] w0 eq_refl _).
    constructor. simpl. repeat constructor.
Defined.

(** Under the any-of reading a context that has one key of a required group
    passes the guard, and the construction goes on. *)
Lemma any_of_accepts_one_member_of_a_group :
  context_accepted (env := Offline.any_of) twiceConfigured
                   [("region", VString "eu")] = true
  /\ fst (make (env := Offline.any_of) 1 twiceConfigured None
               (Some [("region", VString "eu")]) w0) = Returned [].
Proof. split; reflexivity. Qed.

(** C6 as stated fails twice.  [bareFactory] has no entity class in its
    definition and inherits the entity hook, yet [make] returns an entity:
    the class came with the constructor-time overrides.  [tenantFactory] has
    no entity class at all, and a call without the required context fails
    with [MissingContextError], not [NotImplementedError]. *)
Lemma unconfigured_definition_does_not_always_fail_so :
  opt_entity (options (bareFactory None)) = None
  /\ entity_method (bareFactory None) = None
  /\ run (make 1 (bareFactory None) None None)
       = (Returned [], [EvEntity (Some []) []; EvFinalize [] []])
  /\ opt_entity (options tenantFactory) = None
  /\ entityClass tenantFactory = None
  /\ entity_method tenantFactory = None
  /\ run (make 1 tenantFactory None None)
       = (Threw (MissingContextError (KeySingle "tenant")), []).
Proof. repeat split; reflexivity. Qed.

Lemma unconfigured_factory_is_not_implemented_witness :
  make 1 tenantFactory None (Some [("tenant", VString "acme")]) w0
    = (Threw NotImplementedError,
       record_event (EvEntity None [("tenant", VString "acme")]) w0)
  /\ create 1 tenantFactory None (Some [("tenant", VString "acme")]) None w0
    = (Threw NotImplementedError,
       record_event (EvEntity None [("tenant", VString "acme")]) w0).
Proof.
  apply (unconfigured_factory_is_not_implemented
           0 tenantFactory None (Some [("tenant", VString "acme")]) None w0);
    reflexivity.
Defined.

Lemma many_calls_single_operation_n_times_witness :
  makeMany 1 userFactory 2 None None w0
    = (Returned [[("name", VString "A")]; [("name", VString "B")]],
       snd (makeMany 1 userFactory 2 None None w0))
  /\ List.length [[("name", VString "A")]; [("name", VString "B")]] = 2%nat.
Proof.
  split; [reflexivity|].
  destruct (many_calls_single_operation_n_times
              2 1 userFactory None None None w0) as (_ & _ & Hlen & _).
  apply (Hlen _ (snd (makeMany 1 userFactory 2 None None w0))).
  reflexivity.
Defined.

Lemma override_time_configuration_wins_witness :
  ((exists evs,
       trace (snd (make 1 Offline.reconfigured None
                        (Some [("region", VString "eu")]) w0))
       = trace w0
         ++ EvEntity (Some [("kind", VString "user")])
                     [("region", VString "eu")] :: evs)
   /\ (exists evs,
         trace (snd (create 1 Offline.reconfigured None
                            (Some [("region", VString "eu")]) None w0))
         = trace w0
           ++ EvEntity (Some [("kind", VString "user")])
                       [("region", VString "eu")] :: evs))
  /\ (make 1 Offline.reconfigured None (Some [("tenant", VString "acme")]) w0
      = (Threw (MissingContextError (KeySingle "region")), w0)
      /\ create 1 Offline.reconfigured None
                (Some [("tenant", VString "acme")]) None w0
        = (Threw (MissingContextError (KeySingle "region")), w0))
  /\ fst (make 1 Offline.reconfigured None
               (Some [("region", VString "eu")]) w0)
     = Returned [("kind", VString "user")].
Proof.
  destruct (override_time_configuration_wins Offline.reconfigured)
    as (Hboth & _).
  pose proof (Hboth {| class_name := "User";
                       class_new := [("kind", VString "user")] |}
                    [KeySingle "region"] eq_refl eq_refl) as H.
  split; [|split].
  - exact (H 0%nat None (Some [("region", VString "eu")]) None w0).
  - exact (H 0%nat None (Some [("tenant", VString "acme")]) None w0).
  - reflexivity.
Defined.

Lemma negative_amount_makes_nothing_witness :
  -3 < 0
  /\ makeMany 1 userFactory (-3) None None w0 = (Returned [], w0)
  /\ createMany 1 userFactory (-3) None None None w0 = (Returned [], w0).
Proof.
  split; [lia|].
  apply (negative_amount_makes_nothing (-3) 1 userFactory None None None w0).
  lia.
Defined.

(** ** Further properties of [Factory] *)

Section Persisting.

Context {U D : Type} {env : Environment U D}.

Notation "x <- m ;; k" := (bind m (fun x => k))
  (at level 100, m at next level, right associativity).

(** X1: a factory that was given no seeding source cannot persist: [save]
    throws at the getter, before the data source is looked at, and leaves the
    world as it was; and [create] on such a factory never returns an
    entity. *)
Theorem no_seeding_source_no_persistence (f : Factory U) :
  ov_seedingSource (optionOverrides f) = None ->
  (forall e saveOptions (w : world U D),
      save f e saveOptions w = (Threw MissingCollaboratorError, w))
  /\ (forall fuel overrideParams context saveOptions (w w' : world U D) e,
        create fuel f overrideParams context saveOptions w
          <> (Returned e, w')).
Proof.
  intros Hnone.
  assert (Hsave : forall e saveOptions (w : world U D),
             save f e saveOptions w = (Threw MissingCollaboratorError, w)).
  { intros e saveOptions w. unfold save, seedingSource. now rewrite Hnone. }
  split; [exact Hsave|].
  intros fuel overrideParams context saveOptions w w' e H.
  unfold create, create_with in H.
  apply bind_returned in H as (e0 & w1 & _ & H).
  rewrite Hsave in H. discriminate.
Qed.

(** X2: a [save] that returns leaves its data source initialized and the
    other data sources as they were; it initialized the data source exactly
    when it was not initialized, and then handed the entity and the save
    options to the entity manager. *)
Theorem save_initializes_when_due (f : Factory U) (e e' : obj)
    (saveOptions : option obj) (w w' : world U D) :
  save f e saveOptions w = (Returned e', w') ->
  exists source,
    ov_seedingSource (optionOverrides f) = Some source
    /\ isInitialized (dataSources w' source) = true
    /\ (forall other, other <> source ->
                      dataSources w' other = dataSources w other)
    /\ trace w' = trace w
         ++ save_events source (isInitialized (dataSources w source))
                        e saveOptions.
Proof.
  intros H.
  destruct (save_returned _ _ _ _ _ _ H) as (source & Hsrc & Htrace).
  exists source. split; [exact Hsrc|].
  revert H. unfold save, seedingSource. rewrite Hsrc.
  unfold bind, ret, get_dataSource, initialize, manager_save, log,
    set_dataSource, throw, bind. simpl.
  destruct (isInitialized (dataSources w source)) eqn:Hinit; simpl.
  - destruct (em_save (store (dataSources w source)) e saveOptions)
      as [r d]; simpl.
    intros H. inversion H; subst; simpl. rewrite Nat.eqb_refl. simpl.
    repeat split; try assumption.
    intros other Hother. apply Nat.eqb_neq in Hother. now rewrite Hother.
  - destruct (ds_initialize (store (dataSources w source))) as [err | d0];
      simpl; [discriminate|].
    rewrite Nat.eqb_refl. simpl.
    destruct (em_save d0 e saveOptions) as [r d]; simpl.
    intros H. inversion H; subst; simpl. rewrite Nat.eqb_refl. simpl.
    repeat split; try assumption.
    intros other Hother. apply Nat.eqb_neq in Hother. now rewrite Hother.
Qed.

(** X3: when the data source is not initialized and its initialization
    fails, [save] fails with that error: the entity manager is never asked
    to save, and the data source stays uninitialized. *)
Theorem save_fails_when_initialization_fails (f : Factory U) (e : obj)
    (saveOptions : option obj) (w : world U D) (source : nat) (err : error) :
  ov_seedingSource (optionOverrides f) = Some source ->
  isInitialized (dataSources w source) = false ->
  ds_initialize (store (dataSources w source)) = inl err ->
  save f e saveOptions w
    = (Threw err, record_event (EvInitialize source) w).
Proof.
  intros Hsrc Hcold Hfail. unfold save, seedingSource. rewrite Hsrc.
  unfold bind, ret, get_dataSource, initialize, log, throw, bind. simpl.
  rewrite Hcold. simpl. now rewrite Hfail.
Qed.

End Persisting.

Section Resolving.

Context {U D : Type} {env : Environment U D}.

Notation "x <- m ;; k" := (bind m (fun x => k))
  (at level 100, m at next level, right associativity).

(** X5: the override merge of a construction.  After it the entity has the
    attributes it had and those the overrides name, whether the entity
    declared them or not; an attribute the overrides name has the value they
    give, any other attribute the value it had. *)
Theorem override_merge_attributes (e overrideParams : obj) (k : string) :
  obj_has (applyOverrides e overrideParams) k
    = obj_has e k || obj_has overrideParams k
  /\ obj_get (applyOverrides e overrideParams) k
    = if obj_has overrideParams k then obj_get overrideParams k
      else obj_get e k.
Proof.
  split; [|apply applyOverrides_get].
  unfold applyOverrides. now rewrite fold_overrides_has, existsb_keys_has.
Qed.

(** *** Resolution *)

(** X6: attribute resolution neither adds nor removes nor reorders
    attributes: an entity that [resolveEntity] returns has the attribute
    names of the entity it was given, in the same order, under [make] and
    under [create] alike. *)
Theorem resolveEntity_keeps_attribute_names
    (makeEntity' :
       Factory U -> obj -> option obj -> bool -> option obj -> M U D obj)
    (persist : bool) (saveOptions : option obj) (e e' : obj)
    (w w' : world U D) :
  resolveEntity makeEntity' e persist saveOptions w = (Returned e', w') ->
  obj_keys e' = obj_keys e.
Proof.
  unfold resolveEntity. intros H.
  eapply resolveAttributes_keys; [|exact H]. auto.
Qed.

Lemma resolveAttributes_resolved
    (makeEntity' :
       Factory U -> obj -> option obj -> bool -> option obj -> M U D obj)
    (persist : bool) (saveOptions : option obj) (e : obj) (w : world U D) :
  forall attributes : list string,
    (forall a, In a attributes -> unresolved (obj_get e a) = false) ->
    resolveAttributes makeEntity' persist saveOptions attributes e w
      = (Returned e, w).
Proof.
  induction attributes as [|a rest IH]; intros Hplain; simpl.
  - reflexivity.
  - assert (Hone : resolveAttribute makeEntity' persist saveOptions e a w
                   = (Returned e, w)).
    { unfold resolveAttribute. specialize (Hplain a (or_introl eq_refl)).
      destruct (obj_get e a); simpl in Hplain; try discriminate;
        reflexivity. }
    unfold bind. rewrite Hone. apply IH.
    intros a' Ha'. apply Hplain. now right.
Qed.

Lemma resolveEntity_resolved
    (makeEntity' :
       Factory U -> obj -> option obj -> bool -> option obj -> M U D obj)
    (persist : bool) (saveOptions : option obj) (e : obj) (w : world U D) :
  fully_resolved e = true ->
  resolveEntity makeEntity' e persist saveOptions w = (Returned e, w).
Proof.
  unfold fully_resolved, resolveEntity. rewrite forallb_forall. intros H.
  apply resolveAttributes_resolved.
  intros a Ha. specialize (H a Ha). now apply negb_true_iff in H.
Qed.

(** X7: on an entity that is fully resolved already, attribute resolution
    is the identity and does nothing: no nested factory is called, nothing is
    persisted, whatever the persist flag and the save options. *)
Theorem resolveEntity_on_resolved_entity
    (makeEntity' :
       Factory U -> obj -> option obj -> bool -> option obj -> M U D obj)
    (persist : bool) (saveOptions : option obj) (e : obj) (w : world U D) :
  fully_resolved e = true ->
  resolveEntity makeEntity' e persist saveOptions w = (Returned e, w).
Proof. apply resolveEntity_resolved. Qed.

Lemma no_factory_values (o : obj) :
  forallb (fun kv => negb (isFactory (snd kv))) o = true -> no_factory o.
Proof.
  intros H k. induction o as [|[k' v'] rest IH]; simpl; [reflexivity|].
  simpl in H. apply andb_true_iff in H as [Hv Hrest].
  destruct (String.eqb k' k); [now apply negb_true_iff | auto].
Qed.

Lemma resolveAttributes_no_factory
    (makeEntity1 makeEntity2 :
       Factory U -> obj -> option obj -> bool -> option obj -> M U D obj)
    (persist1 persist2 : bool) (saveOptions1 saveOptions2 : option obj)
    (w : world U D) :
  forall (attributes : list string) (e : obj),
    NoDup attributes ->
    (forall a, In a attributes -> isFactory (obj_get e a) = false) ->
    resolveAttributes makeEntity1 persist1 saveOptions1 attributes e w
    = resolveAttributes makeEntity2 persist2 saveOptions2 attributes e w
    /\ snd (resolveAttributes makeEntity1 persist1 saveOptions1
                              attributes e w) = w.
Proof.
  induction attributes as [|a rest IH]; intros e Hnd Hnf; simpl.
  - split; reflexivity.
  - inversion Hnd as [|? ? Hnotin Hnd']; subst.
    assert (Hone : exists r,
               resolveAttribute makeEntity1 persist1 saveOptions1 e a w
                 = (r, w)
               /\ resolveAttribute makeEntity2 persist2 saveOptions2 e a w
                 = (r, w)
               /\ forall e1, r = Returned e1 ->
                    forall a', a' <> a -> obj_get e1 a' = obj_get e a').
    { unfold resolveAttribute. specialize (Hnf a (or_introl eq_refl)).
      destruct (obj_get e a)
        as [| s | n | settled | reason | ref | fields];
        simpl in Hnf; try discriminate; simpl; unfold bind, ret, throw;
        try (eexists; repeat split; intros e1 He1; inversion He1; subst;
             reflexivity).
      destruct (await settled) as [err | v];
        eexists; repeat split; intros e1 He1; [discriminate|].
      inversion He1; subst.
      intros a' Ha'. apply obj_get_set_other. congruence. }
    destruct Hone as (r & H1 & H2 & Hothers).
    unfold bind. rewrite H1, H2.
    destruct r as [e1 | err |]; [|split; reflexivity|split; reflexivity].
    apply IH; [exact Hnd'|].
    intros a' Ha'. rewrite (Hothers e1 eq_refl).
    + apply Hnf. now right.
    + intros ->. contradiction.
Qed.

(** X8: on an entity none of whose attributes is a factory instance,
    attribute resolution only awaits the promise-like attributes: it leaves
    the world as it was, and does the same whatever the persist flag and the
    save options, so the persist flag matters to nested factories only. *)
Theorem resolveEntity_without_factories
    (makeEntity1 makeEntity2 :
       Factory U -> obj -> option obj -> bool -> option obj -> M U D obj)
    (persist1 persist2 : bool) (saveOptions1 saveOptions2 : option obj)
    (e : obj) (w : world U D) :
  no_factory e ->
  resolveEntity makeEntity1 e persist1 saveOptions1 w
  = resolveEntity makeEntity2 e persist2 saveOptions2 w
  /\ snd (resolveEntity makeEntity1 e persist1 saveOptions1 w) = w.
Proof.
  intros Hnf. unfold resolveEntity.
  apply resolveAttributes_no_factory; [apply obj_keys_NoDup|].
  intros a _. apply Hnf.
Qed.

End Resolving.

Section Constructing.

Context {U D : Type} {env : Environment U D}.

Notation "x <- m ;; k" := (bind m (fun x => k))
  (at level 100, m at next level, right associativity).

Lemma bind_ext_at {A B : Type} (m : M U D A) (k k' : A -> M U D B)
    (w : world U D) :
  (forall a w1, m w = (Returned a, w1) -> k a w1 = k' a w1) ->
  bind m k w = bind m k' w.
Proof.
  intros H. unfold bind. destruct (m w) as [[a|e|] w1]; auto.
Qed.

Lemma unresolved_get_plain (o : obj) (k : string) :
  plain_object o = true -> unresolved (obj_get o k) = false.
Proof.
  unfold plain_object. rewrite forallb_forall. intros H.
  destruct (in_dec string_dec k (obj_keys o)) as [Hin | Hout].
  - apply negb_true_iff. now apply H.
  - now rewrite obj_get_absent.
Qed.

Lemma applyOverrides_plain (e overrideParams : obj) :
  fully_resolved e = true ->
  plain_object overrideParams = true ->
  fully_resolved (applyOverrides e overrideParams) = true.
Proof.
  intros He Ho. unfold fully_resolved. apply forallb_forall. intros k _.
  apply negb_true_iff. rewrite applyOverrides_get.
  destruct (obj_has overrideParams k); now apply unresolved_get_plain.
Qed.

(** X9: a factory that only configures an entity class (inherited entity and
    finalize hooks, no map function) makes a fresh instance of the class with
    the overrides merged in: when the instance and the overrides hold plain
    values, [make] returns exactly that entity, and all it does is invoke
    the two inherited hooks. *)
Theorem class_only_factory_makes_the_instance (fuel : nat) (f : Factory U)
    (c : ClassConstructor) (overrideParams context : option obj)
    (w : world U D) :
  entityClass f = Some c ->
  entity_method f = None ->
  finalize_method f = None ->
  mapFunction f = None ->
  context_accepted f (or_empty context) = true ->
  fully_resolved (class_new c) = true ->
  plain_object (or_empty overrideParams) = true ->
  make (S fuel) f overrideParams context w
  = (Returned (applyOverrides (class_new c) (or_empty overrideParams)),
     record_event
       (EvFinalize (applyOverrides (class_new c) (or_empty overrideParams))
                   (or_empty context))
       (record_event (EvEntity (Some (class_new c)) (or_empty context)) w)).
Proof.
  intros Hclass Hentity Hfinal Hmap Hctx Hinstance Hplain.
  unfold make, make_with. simpl.
  unfold context_accepted in Hctx. unfold entity, finalize.
  rewrite Hclass, Hentity, Hfinal, Hmap. simpl.
  assert (Hvalid :
            match requiredContextKeys f with
            | Some keys =>
                match expectContext group_rule (or_empty context) keys with
                | Some err => throw err
                | None => ret tt
                end
            | None => ret tt
            end = ret (U := U) (D := D) tt).
  { destruct (requiredContextKeys f) as [keys|]; [|reflexivity].
    now destruct (expectContext group_rule (or_empty context) keys). }
  rewrite Hvalid. unfold bind at 1. unfold ret at 1.
  unfold bind at 1. unfold bind at 1. unfold log at 1. unfold ret at 1.
  unfold bind at 1. unfold ret at 1.
  unfold bind at 1.
  rewrite resolveEntity_resolved by now apply applyOverrides_plain.
  reflexivity.
Qed.

Lemma resolveEntity_persist_irrelevant
    (makeEntity1 makeEntity2 :
       Factory U -> obj -> option obj -> bool -> option obj -> M U D obj)
    (persist1 persist2 : bool) (saveOptions1 saveOptions2 : option obj)
    (e : obj) (w : world U D) :
  no_factory e ->
  resolveEntity makeEntity1 e persist1 saveOptions1 w
  = resolveEntity makeEntity2 e persist2 saveOptions2 w.
Proof.
  intros Hnf. unfold resolveEntity.
  apply resolveAttributes_no_factory; [apply obj_keys_NoDup|].
  intros a _. apply Hnf.
Qed.

(** X10: when the entity that the entity hook and the map function produce
    has, once the overrides are merged in, no factory-valued attribute,
    [create] is [make] followed by [save]: it constructs exactly what [make]
    constructs, with the same effects, and then persists it. *)
Theorem create_is_make_then_save (fuel : nat) (f : Factory U)
    (overrideParams context saveOptions : option obj) (w : world U D) :
  (forall produced wp,
      generate f (or_empty context) w = (Returned produced, wp) ->
      no_factory (applyOverrides produced (or_empty overrideParams))) ->
  create fuel f overrideParams context saveOptions w
  = (e <- make fuel f overrideParams context;; save f e saveOptions) w.
Proof.
  intros Hnf. unfold create, create_with, make, make_with.
  assert (Hsame :
            makeEntity fuel f (or_empty overrideParams)
                       (Some (or_empty context)) true saveOptions w
            = makeEntity fuel f (or_empty overrideParams)
                         (Some (or_empty context)) false None w).
  { destruct fuel as [|fuel]; [reflexivity|]. simpl.
    apply bind_ext_at. intros [] wv Hvalid.
    assert (wv = w) as ->.
    { destruct (requiredContextKeys f) as [keys|].
      - destruct (expectContext group_rule (or_empty context) keys);
          unfold throw, ret in Hvalid; now inversion Hvalid.
      - unfold ret in Hvalid. now inversion Hvalid. }
    apply bind_ext_at. intros e0 w1 Hentity.
    apply bind_ext_at. intros produced wp Hmap.
    unfold bind.
    rewrite (resolveEntity_persist_irrelevant
               (makeEntity fuel) (makeEntity fuel) true false saveOptions None
               _ wp); [reflexivity|].
    apply (Hnf produced wp). unfold generate, bind. now rewrite Hentity. }
  unfold bind. now rewrite Hsame.
Qed.

End Constructing.

Section Many.

Context {U D : Type} {env : Environment U D}.

Notation "x <- m ;; k" := (bind m (fun x => k))
  (at level 100, m at next level, right associativity).

Lemma callTimes_add (one : M U D obj) (m : nat) :
  forall (n : nat) (w : world U D),
    callTimes (n + m) one w
    = (l1 <- callTimes n one;; l2 <- callTimes m one;; ret (l1 ++ l2)) w.
Proof.
  induction n as [|n IH]; intros w; simpl.
  - unfold bind, ret. simpl.
    now destruct (callTimes m one w) as [[l|err|] w1].
  - unfold bind. destruct (one w) as [[e|err|] w1]; try reflexivity.
    rewrite IH. unfold bind, ret.
    destruct (callTimes n one w1) as [[l1|err|] w2]; try reflexivity.
    now destruct (callTimes m one w2) as [[l2|err|] w3].
Qed.

Lemma many_loop_add (one : M U D obj) (n m : nat) (w : world U D) :
  many_loop (Z.to_nat (Z.of_nat (n + m))) one (Z.of_nat (n + m)) 0 [] w
  = (l1 <- many_loop (Z.to_nat (Z.of_nat n)) one (Z.of_nat n) 0 [];;
     l2 <- many_loop (Z.to_nat (Z.of_nat m)) one (Z.of_nat m) 0 [];;
     ret (l1 ++ l2)) w.
Proof.
  rewrite many_loop_from_start, callTimes_add.
  unfold bind. rewrite many_loop_from_start.
  destruct (callTimes n one w) as [[l1|err|] w1]; try reflexivity.
  now rewrite many_loop_from_start.
Qed.

(** X11: bulk construction composes.  Making (creating) [n + m] entities is
    making (creating) [n] entities, then [m] more from the world the first
    batch left, and appending the two lists. *)
Theorem many_of_a_sum (n m fuel : nat) (f : Factory U)
    (overrideParams context saveOptions : option obj) (w : world U D) :
  makeMany fuel f (Z.of_nat (n + m)) overrideParams context w
  = (l1 <- makeMany fuel f (Z.of_nat n) overrideParams context;;
     l2 <- makeMany fuel f (Z.of_nat m) overrideParams context;;
     ret (l1 ++ l2)) w
  /\ createMany fuel f (Z.of_nat (n + m)) overrideParams context
                saveOptions w
  = (l1 <- createMany fuel f (Z.of_nat n) overrideParams context saveOptions;;
     l2 <- createMany fuel f (Z.of_nat m) overrideParams context saveOptions;;
     ret (l1 ++ l2)) w.
Proof.
  unfold makeMany, createMany. split; apply many_loop_add.
Qed.

Lemma many_loop_fails_later (one : M U D obj) (k n : nat)
    (w w1 w2 : world U D) (l : list obj) (err : error) :
  (k < n)%nat ->
  many_loop (Z.to_nat (Z.of_nat k)) one (Z.of_nat k) 0 [] w = (Returned l, w1) ->
  one w1 = (Threw err, w2) ->
  many_loop (Z.to_nat (Z.of_nat n)) one (Z.of_nat n) 0 [] w = (Threw err, w2).
Proof.
  intros Hlt Hfirst Hfail. rewrite many_loop_from_start in *.
  replace n with (k + S (n - S k))%nat by lia.
  rewrite callTimes_add. unfold bind. rewrite Hfirst.
  simpl. unfold bind. now rewrite Hfail.
Qed.

(** X12: no partial list.  When the first [k] constructions of a bulk call
    for more than [k] entities succeed and the next one throws, the bulk call
    throws that error: the [k] entities are dropped, and what their
    construction did stays done. *)
Theorem many_fails_with_the_first_failure (k n fuel : nat) (f : Factory U)
    (overrideParams context saveOptions : option obj)
    (w w1 w2 : world U D) (l : list obj) (err : error) :
  (k < n)%nat ->
  (makeMany fuel f (Z.of_nat k) overrideParams context w = (Returned l, w1) ->
   make fuel f (Some (or_empty overrideParams)) (Some (or_empty context)) w1
     = (Threw err, w2) ->
   makeMany fuel f (Z.of_nat n) overrideParams context w = (Threw err, w2))
  /\ (createMany fuel f (Z.of_nat k) overrideParams context saveOptions w
        = (Returned l, w1) ->
      create fuel f (Some (or_empty overrideParams)) (Some (or_empty context))
             saveOptions w1 = (Threw err, w2) ->
      createMany fuel f (Z.of_nat n) overrideParams context saveOptions w
        = (Threw err, w2)).
Proof.
  intros Hlt. unfold makeMany, createMany.
  split; intros Hfirst Hfail; eapply many_loop_fails_later; eassumption.
Qed.

(** *** The map function across constructions *)

Lemma makeEntity_mapped_once (fuel : nat) (g : Factory U)
    (fn : obj -> hook (U := U) obj) (overrideParams context : obj)
    (persist : bool) (saveOptions : option obj)
    (w w1 : world U D) (e : obj) :
  mapFunction g = Some fn ->
  makeEntity (S fuel) g overrideParams (Some context) persist saveOptions w
    = (Returned e, w1) ->
  mapped_once fuel persist saveOptions fn g overrideParams context w e w1.
Proof.
  intros Hfn H. simpl in H. rewrite Hfn in H.
  apply bind_returned in H as ([] & wv & Hvalid & H).
  assert (wv = w) as ->.
  { destruct (requiredContextKeys g) as [keys|].
    - destruct (expectContext group_rule context keys);
        unfold throw, ret in Hvalid; now inversion Hvalid.
    - unfold ret in Hvalid. now inversion Hvalid. }
  apply bind_returned in H as (e0 & we & Hentity & H).
  apply bind_returned in H as (produced & wp & Hmap & H).
  apply bind_returned in H as (resolved & wr & Hres & H).
  apply bind_returned in H as (finalized & wf & Hfin & H).
  unfold ret in H. inversion H; subst finalized wf; clear H.
  unfold bind, log, call_hook in Hmap. simpl in Hmap.
  destruct (fn e0 (user we)) as [r u] eqn:Hcall.
  destruct r as [err | produced']; simpl in Hmap; [discriminate|].
  inversion Hmap; subst produced wp; clear Hmap.
  exists e0, we, produced', u, resolved, wr. repeat split; assumption.
Qed.

Lemma callTimes_each (one : M U D obj)
    (P : world U D -> obj -> world U D -> Prop) :
  (forall w e w1, one w = (Returned e, w1) -> P w e w1) ->
  forall (n : nat) (w w' : world U D) (l : list obj),
    callTimes n one w = (Returned l, w') ->
    each_construction one P w l w'.
Proof.
  intros Hone. induction n as [|n IH]; intros w w' l H; simpl in H.
  - unfold ret in H. inversion H; subst. constructor.
  - apply bind_returned in H as (e & w1 & Hfirst & H).
    apply bind_returned in H as (rest & w2 & Hrest & H).
    unfold ret in H. inversion H; subst.
    econstructor; eauto.
Qed.

(** X13: a registered map function stays registered.  In a bulk call for
    [n] entities on a factory with a map function, when it returns, every
    one of the [n] constructions, run one after the other, invoked the map
    function once: on the entity its entity hook had just returned, and
    before the overrides were merged onto the entity the map function
    left. *)
Theorem map_function_runs_in_every_construction (n fuel : nat)
    (f : Factory U) (fn : obj -> hook (U := U) obj)
    (overrideParams context saveOptions : option obj)
    (w w' : world U D) (l : list obj) :
  (makeMany fuel (map fn f) (Z.of_nat n) overrideParams context w
     = (Returned l, w') ->
   List.length l = n
   /\ each_construction
        (make fuel (map fn f) (Some (or_empty overrideParams))
              (Some (or_empty context)))
        (fun w0 e w1 =>
           exists fuel',
             fuel = S fuel'
             /\ mapped_once fuel' false None fn (map fn f)
                            (or_empty overrideParams) (or_empty context)
                            w0 e w1)
        w l w')
  /\ (createMany fuel (map fn f) (Z.of_nat n) overrideParams context
                 saveOptions w = (Returned l, w') ->
      List.length l = n
      /\ each_construction
           (create fuel (map fn f) (Some (or_empty overrideParams))
                   (Some (or_empty context)) saveOptions)
           (fun w0 e w1 =>
              exists fuel' made wm,
                fuel = S fuel'
                /\ mapped_once fuel' true saveOptions fn (map fn f)
                               (or_empty overrideParams) (or_empty context)
                               w0 made wm
                /\ save (map fn f) made saveOptions wm = (Returned e, w1))
           w l w').
Proof.
  unfold makeMany, createMany. rewrite !many_loop_from_start.
  split; intros H; (split; [eapply callTimes_length; exact H|]);
    revert H; apply callTimes_each.
  - intros w0 e w1 H. unfold make, make_with in H. simpl in H.
    destruct fuel as [|fuel']; [discriminate|].
    exists fuel'. split; [reflexivity|].
    now apply makeEntity_mapped_once.
  - intros w0 e w1 H. unfold create, create_with in H. simpl in H.
    apply bind_returned in H as (made & wm & Hmake & Hsave).
    destruct fuel as [|fuel']; [discriminate|].
    exists fuel', made, wm. split; [reflexivity|].
    split; [|exact Hsave].
    now apply makeEntity_mapped_once.
Qed.

End Many.

Section Hooks.

Context {U D : Type} {env : Environment U D}.

Notation "x <- m ;; k" := (bind m (fun x => k))
  (at level 100, m at next level, right associativity).

Lemma entity_returned (f : Factory U) (instance : option obj)
    (context e : obj) (w w' : world U D) :
  entity f instance context w = (Returned e, w') ->
  trace w' = trace w ++ [EvEntity instance context].
Proof.
  unfold entity, bind, log. simpl.
  destruct (entity_method f) as [h|].
  - unfold call_hook. simpl. destruct (h _ _ (user w)) as [r u].
    intros H. inversion H; subst. reflexivity.
  - destruct instance; unfold ret, throw; intros H; inversion H; subst.
    reflexivity.
Qed.

(** X14: the hooks of a construction that returns.  The entity hook is the
    first thing [make] invokes, with a fresh instance of the entity class in
    force (or nothing when there is none) and the context; the finalize hook
    is the last, invoked on the entity that the attribute resolution of this
    call returned (resolution of what the entity hook and the map function
    produced, with the overrides merged in) and with the same context; and
    with the inherited finalize that entity is the one returned. *)
Theorem make_invokes_entity_first_and_finalize_last (fuel : nat)
    (f : Factory U) (overrideParams context : option obj)
    (w w' : world U D) (e : obj) :
  make fuel f overrideParams context w = (Returned e, w') ->
  exists fuel' produced wp resolved w1 between,
    fuel = S fuel'
    /\ generate f (or_empty context) w = (Returned produced, wp)
    /\ resolveEntity (makeEntity fuel')
                     (applyOverrides produced (or_empty overrideParams))
                     false None wp = (Returned resolved, w1)
    /\ finalize f resolved (or_empty context) w1 = (Returned e, w')
    /\ trace w1
       = trace w
         ++ EvEntity (option_map class_new (entityClass f)) (or_empty context)
         :: between
    /\ trace w' = trace w1 ++ [EvFinalize resolved (or_empty context)]
    /\ (finalize_method f = None -> e = resolved).
Proof.
  unfold make, make_with. intros H.
  destruct fuel as [|fuel]; [discriminate|].
  apply makeEntity_returned in H
    as (produced & wp & resolved & w1 & _ & Hgen & Hres & Hfin).
  simpl in Hgen, Hfin.
  pose proof Hgen as Hgen'. unfold generate in Hgen'.
  apply bind_returned in Hgen' as (e0 & we & Hentity & Hmap).
  apply entity_returned in Hentity.
  assert (Hm : exists evs, trace wp = trace we ++ evs).
  { destruct (mapFunction f) as [fn|].
    - unfold bind, log, call_hook in Hmap. simpl in Hmap.
      destruct (fn e0 (user we)) as [r u]. inversion Hmap; subst. simpl.
      now exists [EvMap e0].
    - unfold ret in Hmap. inversion Hmap; subst. exists [].
      now rewrite app_nil_r. }
  destruct Hm as (evs1 & Htr1).
  assert (Hframed : framed all_events false
            (resolveEntity (makeEntity fuel)
               (applyOverrides produced (or_empty overrideParams))
               false None)).
  { unfold resolveEntity. apply framed_resolveAttributes; auto.
    - discriminate.
    - intros. apply framed_makeEntity; auto. discriminate. }
  destruct (framed_grows _ _ _ _ _ _ Hframed Hres) as (evs2 & Htr2).
  destruct (finalize_returned _ _ _ _ _ _ Hfin) as [Htr3 _].
  exists fuel, produced, wp, resolved, w1, (evs1 ++ evs2).
  repeat split; try assumption.
  - rewrite Htr2, Htr1, Hentity. rewrite <- !app_assoc. reflexivity.
  - intros Hnone. unfold finalize, bind, log in Hfin. simpl in Hfin.
    rewrite Hnone in Hfin. unfold ret in Hfin. now inversion Hfin.
Qed.

(** X15: an entity hook that throws aborts the construction.  [make] and
    [create] throw the error of the hook having done nothing but invoke it:
    no map function, no finalize hook, no save. *)
Theorem failing_entity_hook_aborts (fuel : nat) (f : Factory U)
    (h : option obj -> obj -> hook (U := U) obj)
    (overrideParams context saveOptions : option obj)
    (w : world U D) (err : error) (u : U) :
  entity_method f = Some h ->
  context_accepted f (or_empty context) = true ->
  h (option_map class_new (entityClass f)) (or_empty context) (user w)
    = (inl err, u) ->
  let w' := {| user := u;
               dataSources := dataSources w;
               trace := trace w
                 ++ [EvEntity (option_map class_new (entityClass f))
                              (or_empty context)] |} in
  make (S fuel) f overrideParams context w = (Threw err, w')
  /\ create (S fuel) f overrideParams context saveOptions w
     = (Threw err, w').
Proof.
  intros Hh Hctx Hfail w'.
  unfold make, create, make_with, create_with. simpl.
  unfold context_accepted in Hctx.
  assert (Hvalid :
            match requiredContextKeys f with
            | Some keys =>
                match expectContext group_rule (or_empty context) keys with
                | Some err => throw err
                | None => ret tt
                end
            | None => ret tt
            end = ret (U := U) (D := D) tt).
  { destruct (requiredContextKeys f) as [keys|]; [|reflexivity].
    now destruct (expectContext group_rule (or_empty context) keys). }
  rewrite Hvalid. unfold entity. rewrite Hh.
  unfold bind, ret, log, call_hook. simpl. rewrite Hfail. simpl.
  split; reflexivity.
Qed.

End Hooks.

(** ** The further properties on the fixtures *)

Import Offline.

Lemma no_seeding_source_no_persistence_witness :
  ov_seedingSource (optionOverrides orphanFactory) = None
  /\ save orphanFactory [("name", VString "A")] None w0
     = (Threw MissingCollaboratorError, w0).
Proof.
  split; [reflexivity|].
  destruct (no_seeding_source_no_persistence (D := D) orphanFactory eq_refl)
    as [Hsave _].
  apply Hsave.
Defined.

Lemma save_initializes_when_due_witness :
  exists source,
    ov_seedingSource (optionOverrides userFactory) = Some source
    /\ isInitialized
         (dataSources
            (snd (save userFactory [("name", VString "A")] None w_cold))
            source) = true
    /\ (forall other, other <> source ->
          dataSources
            (snd (save userFactory [("name", VString "A")] None w_cold)) other
          = dataSources w_cold other)
    /\ trace (snd (save userFactory [("name", VString "A")] None w_cold))
       = trace w_cold
         ++ save_events source (isInitialized (dataSources w_cold source))
                        [("name", VString "A")] None.
Proof.
  apply (save_initializes_when_due
           userFactory [("name", VString "A")]
           [("name", VString "A"); ("id", VNumber 1)] None w_cold).
  reflexivity.
Defined.

Lemma save_fails_when_initialization_fails_witness :
  save (env := unreachable) userFactory [("name", VString "A")] None w_cold
  = (Threw (Rejected "connection refused"),
     record_event (EvInitialize 0) w_cold).
Proof.
  apply (save_fails_when_initialization_fails (env := unreachable));
    reflexivity.
Defined.

Lemma resolveEntity_keeps_attribute_names_witness :
  obj_keys [("name", VString "A");
            ("owner", VObject [("name", VString "A")])]
  = obj_keys [("name", VString "A"); ("owner", VFactory 1)].
Proof.
  apply (resolveEntity_keeps_attribute_names
           (makeEntity 1) false None
           [("name", VString "A"); ("owner", VFactory 1)] _ w0
           (snd (resolveEntity (makeEntity 1)
                   [("name", VString "A"); ("owner", VFactory 1)]
                   false None w0))).
  reflexivity.
Defined.

Lemma resolveEntity_on_resolved_entity_witness :
  resolveEntity (makeEntity 0)
    [("name", VString "A"); ("owner", VObject [("name", VString "B")])]
    true None w_cold
  = (Returned [("name", VString "A");
               ("owner", VObject [("name", VString "B")])], w_cold).
Proof.
  apply resolveEntity_on_resolved_entity. reflexivity.
Defined.

Lemma resolveEntity_without_factories_witness :
  resolveEntity (makeEntity 0) [("name", VPromise (VString "Rex"))]
                true (Some [("reload", VNumber 0)]) w_cold
  = resolveEntity (makeEntity 1) [("name", VPromise (VString "Rex"))]
                  false None w_cold
  /\ snd (resolveEntity (makeEntity 0) [("name", VPromise (VString "Rex"))]
                        true (Some [("reload", VNumber 0)]) w_cold) = w_cold.
Proof.
  apply resolveEntity_without_factories.
  apply no_factory_values. reflexivity.
Defined.

Lemma class_only_factory_makes_the_instance_witness :
  make 1 plainFactory (Some [("name", VString "Rex")]) None w0
  = (Returned [("name", VString "Rex")],
     record_event (EvFinalize [("name", VString "Rex")] [])
       (record_event
          (EvEntity (Some [("name", VString "anonymous")]) []) w0)).
Proof.
  apply (class_only_factory_makes_the_instance
           0 plainFactory
           {| class_name := "User";
              class_new := [("name", VString "anonymous")] |}
           (Some [("name", VString "Rex")]) None w0);
    reflexivity.
Defined.

Lemma create_is_make_then_save_witness :
  create 1 userFactory None None None w0
  = bind (make 1 userFactory None None)
         (fun e => save userFactory e None) w0.
Proof.
  apply create_is_make_then_save.
  intros produced wp H. cbv in H. inversion H; subst.
  apply no_factory_values. reflexivity.
Defined.

Lemma many_fails_with_the_first_failure_witness :
  makeMany 1 onceFactory 3 None None w0
  = (Threw (Rejected "exhausted"),
     snd (make 1 onceFactory (Some []) (Some [])
               (snd (makeMany 1 onceFactory 1 None None w0)))).
Proof.
  destruct (many_fails_with_the_first_failure
              1 3 1 onceFactory None None None w0
              (snd (makeMany 1 onceFactory 1 None None w0))
              (snd (make 1 onceFactory (Some []) (Some [])
                         (snd (makeMany 1 onceFactory 1 None None w0))))
              [[("name", VString "A")]] (Rejected "exhausted"))
    as [Hmake _]; [lia|].
  apply Hmake; reflexivity.
Defined.

Lemma map_function_runs_in_every_construction_witness :
  List.length [[("name", VString "A"); ("marked", VNumber 1)];
               [("name", VString "C"); ("marked", VNumber 3)]] = 2%nat
  /\ each_construction
       (make 1 (map marking userFactory) (Some []) (Some []))
       (fun w e w1 =>
          exists fuel',
            1%nat = S fuel'
            /\ mapped_once fuel' false None marking (map marking userFactory)
                           [] [] w e w1)
       w0
       [[("name", VString "A"); ("marked", VNumber 1)];
        [("name", VString "C"); ("marked", VNumber 3)]]
       (snd (makeMany 1 (map marking userFactory) 2 None None w0)).
Proof.
  destruct (map_function_runs_in_every_construction
              2 1 userFactory marking None None None w0
              (snd (makeMany 1 (map marking userFactory) 2 None None w0))
              [[("name", VString "A"); ("marked", VNumber 1)];
               [("name", VString "C"); ("marked", VNumber 3)]])
    as [Hmake _].
  exact (Hmake eq_refl).
Defined.

Lemma make_invokes_entity_first_and_finalize_last_witness :
  exists fuel' produced wp resolved w1 between,
    2%nat = S fuel'
    /\ generate petFactory [] w0 = (Returned produced, wp)
    /\ resolveEntity (makeEntity fuel') (applyOverrides produced [])
                     false None wp = (Returned resolved, w1)
    /\ finalize petFactory resolved [] w1
       = (Returned [("name", VString "A");
                    ("owner", VObject [("name", VString "B")])],
          snd (make 2 petFactory None None w0))
    /\ trace w1
       = trace w0
         ++ EvEntity (option_map class_new (entityClass petFactory)) []
         :: between
    /\ trace (snd (make 2 petFactory None None w0))
       = trace w1 ++ [EvFinalize resolved []]
    /\ (finalize_method petFactory = None ->
        [("name", VString "A"); ("owner", VObject [("name", VString "B")])]
        = resolved).
Proof.
  exact (make_invokes_entity_first_and_finalize_last
           2 petFactory None None w0
           (snd (make 2 petFactory None None w0))
           [("name", VString "A"); ("owner", VObject [("name", VString "B")])]
           eq_refl).
Defined.

Lemma failing_entity_hook_aborts_witness :
  make 1 onceFactory None None w_spent
  = (Threw (Rejected "exhausted"),
     {| user := 1%nat;
        dataSources := dataSources w_spent;
        trace := [EvEntity (Some []) []] |})
  /\ create 1 onceFactory None None None w_spent
  = (Threw (Rejected "exhausted"),
     {| user := 1%nat;
        dataSources := dataSources w_spent;
        trace := [EvEntity (Some []) []] |}).
Proof.
  destruct (entity_method onceFactory) as [h|] eqn:Hh; [|discriminate].
  apply (failing_entity_hook_aborts
           0 onceFactory h None None None w_spent
           (Rejected "exhausted") 1%nat Hh); [reflexivity|].
  inversion Hh; subst. reflexivity.
Defined.
